(** * Interaction.js (eris): the response operations of an interaction

    A shallow embedding of [lib/structures/Interaction.js]: the JavaScript
    values the class handles, a heap of mutable objects (caller-supplied
    option objects are shared by reference with the requests handed to the
    REST client, and may be frozen or carry a read-only [type]), the
    constructor, and the eight response operations, each a computation in a
    state-and-exception monad whose state holds the interaction itself, the
    heap and the trace of calls made to the client. *)

From stdpp Require Import gmap strings list fin_maps.
From Stdlib Require Import ZArith.

Local Open Scope Z_scope.
Local Open Scope string_scope.
Local Open Scope list_scope.

(** ** JavaScript values *)

Abbreviation loc := positive.

(** The four functions of the REST client that the class calls. *)
Inductive endpoint :=
  | InteractionResponse
  | Webhook
  | WebhookMessageEdit
  | WebhookMessageDelete.

#[global] Instance endpoint_eq_dec : EqDecision endpoint.
Proof. solve_decision. Defined.

(** Numbers are restricted to the integers plus NaN. The only functions are
    the REST client's; symbols and bigints are left out. [VObject l] is a
    reference to an ordinary object of the heap, [VInteraction] a reference
    to the interaction itself, which a caller may pass where an object is
    expected. *)
Inductive value :=
  | VUndefined
  | VNull
  | VBool (b : bool)
  | VNumber (z : Z)
  | VNaN
  | VString (s : string)
  | VObject (l : loc)
  | VFunction (e : endpoint)
  | VInteraction.

#[global] Instance value_eq_dec : EqDecision value.
Proof. solve_decision. Defined.

(** [typeof v] *)
Definition typeof (v : value) : string :=
  match v with
  | VUndefined => "undefined"
  | VNull => "object"
  | VBool _ => "boolean"
  | VNumber _ | VNaN => "number"
  | VString _ => "string"
  | VObject _ | VInteraction => "object"
  | VFunction _ => "function"
  end.

(** ToBoolean *)
Definition truthy (v : value) : bool :=
  match v with
  | VUndefined | VNull | VNaN => false
  | VBool b => b
  | VNumber z => negb (Z.eqb z 0)
  | VString s => negb (String.eqb s EmptyString)
  | VObject _ | VFunction _ | VInteraction => true
  end.

(** [a || b] *)
Definition js_or (a b : value) : value := if truthy a then a else b.

(** [a !== b] on the values above (NaN is unequal to itself). *)
Definition strict_ne (a b : value) : bool :=
  match a, b with
  | VNaN, _ | _, VNaN => true
  | _, _ => negb (bool_decide (a = b))
  end.

(** What stands in the way of assigning to an own property: a data
    property that is not writable (as every property of a frozen object)
    or an accessor without setter, and an accessor with a setter, which
    runs instead of the store. *)
Inductive attribute :=
  | ReadOnly
  | Setter.

(** An ordinary object. [props] is what reading each own property yields
    (for an accessor, what its getter returns); a property without entry in
    [attrs] is a writable data property; [extensible] tells whether new
    properties may be added. Getters and setters are not run: reading never
    changes the state, and a setter leaves every modelled object as it is.
    Inherited properties are left out: none of the names this file reads or
    writes is on [Object.prototype]. *)
Record object := Object {
  props : gmap string value;
  attrs : gmap string attribute;
  extensible : bool
}.

(** An object literal [{ ... }] *)
Definition literal (ps : gmap string value) : object :=
  {| props := ps; attrs := ∅; extensible := true |}.

(** [Object.freeze({ ... })] *)
Definition frozen_literal (ps : gmap string value) : object :=
  {| props := ps; attrs := (λ _, ReadOnly) <$> ps; extensible := false |}.

Definition set_own (k : string) (v : value) (o : object) : object :=
  {| props := <[k := v]> (props o); attrs := attrs o; extensible := extensible o |}.

(** [k] is a writable data property of [o], or [o] has no own property [k]
    and is extensible. *)
Definition writable (k : string) (o : object) : bool :=
  bool_decide (attrs o !! k = None)
  && (bool_decide (is_Some (props o !! k)) || extensible o).

(** [o.k = v] in strict mode: the object after the assignment, or [None]
    when the assignment throws a TypeError. *)
Definition assign (k : string) (v : value) (o : object) : option object :=
  match attrs o !! k with
  | Some ReadOnly => None
  | Some Setter => Some o
  | None =>
      if bool_decide (is_Some (props o !! k)) || extensible o
      then Some (set_own k v o)
      else None
  end.

(** ** Completions: a normal result, or a thrown error identified by its name *)

Inductive completion (A : Type) :=
  | Normal (a : A)
  | Throw (name : string).
Arguments Normal {A} a.
Arguments Throw {A} name.

#[global] Instance completion_eq_dec {A} `{EqDecision A} : EqDecision (completion A).
Proof. solve_decision. Defined.

#[global] Instance completion_ret : MRet completion := @Normal.
#[global] Instance completion_bind : MBind completion := fun A B f c =>
  match c with
  | Normal a => f a
  | Throw e => Throw e
  end.

(** [v.k] as an rvalue: reading a property of [undefined] or [null] throws;
    a primitive or a function has none of the properties read in this file,
    and neither has the interaction (no method reads a property of the
    object it is given, and the names looked up on the client are not
    properties of an instance). *)
Definition get (h : gmap loc object) (v : value) (k : string) : completion value :=
  match v with
  | VUndefined | VNull => Throw "TypeError"
  | VObject l =>
      Normal (match h !! l with
              | Some o => default VUndefined (props o !! k)
              | None => VUndefined
              end)
  | _ => Normal VUndefined
  end.

(** ** Collaborators that are not part of this file *)

(** Modelled from the spec: [Constants.InteractionResponseType] is required
    from [../Constants], which is not among the sources; the spec lists the
    discriminators as 1=Pong, 4=ChannelMessageWithSource,
    5=DeferredChannelMessageWithSource, 6=DeferredUpdateMessage,
    7=UpdateMessage. *)
Module Constants.
Module InteractionResponseType.
Definition PONG : value := VNumber 1.
Definition CHANNEL_MESSAGE_WITH_SOURCE : value := VNumber 4.
Definition DEFERRED_CHANNEL_MESSAGE_WITH_SOURCE : value := VNumber 5.
Definition DEFERRED_UPDATE_MESSAGE : value := VNumber 6.
Definition UPDATE_MESSAGE : value := VNumber 7.
End InteractionResponseType.
End Constants.

(** Modelled from the spec: the classes [Member] and [Message] (the generic
    message/member data model) are required from sibling files that are not
    among the sources; an instance is kept as the arguments it was built
    from. *)
Record Member := new_Member { member_data : value }.
Record Message := new_Message { message_data : value; message_client : value }.

(** The calls the class makes on its client, with their arguments. *)
Inductive call :=
  | createInteractionResponse (id token body : value)
  | executeWebhook (applicationId token options : value)
  | editWebhookMessage (applicationId token messageId options : value)
  | deleteWebhookMessage (applicationId token messageId : value).

#[global] Instance call_eq_dec : EqDecision call.
Proof. solve_decision. Defined.

(** The call recorded when the client's function [e] is applied to [args]
    (a missing argument is [undefined], a surplus one is ignored). What the
    function does besides is outside this file: it is answered by a
    promise and leaves the modelled objects as they are. *)
Definition request (e : endpoint) (args : list value) : call :=
  let arg (i : nat) := default VUndefined (args !! i) in
  match e with
  | InteractionResponse => createInteractionResponse (arg 0%nat) (arg 1%nat) (arg 2%nat)
  | Webhook => executeWebhook (arg 0%nat) (arg 1%nat) (arg 2%nat)
  | WebhookMessageEdit => editWebhookMessage (arg 0%nat) (arg 1%nat) (arg 2%nat) (arg 3%nat)
  | WebhookMessageDelete => deleteWebhookMessage (arg 0%nat) (arg 1%nat) (arg 2%nat)
  end.

(** The promise returned by the client for its [n]-th call. *)
Inductive promise := Promise (n : nat).

(** What [c.name.call] denotes once it is looked up: [Function.prototype.call]
    of one of the client's functions, an own property [call] of an object
    stored under [name] that is such a function, or something that cannot
    be called. *)
Inductive callee :=
  | Builtin (e : endpoint)
  | OwnMethod (e : endpoint)
  | NotCallable.

#[global] Instance callee_eq_dec : EqDecision callee.
Proof. solve_decision. Defined.

(** The lookup [c.name.call], before any argument is evaluated: reading
    [name] of [undefined] or [null] throws, and so does reading [call] of
    an [undefined] or [null] property. *)
Definition resolve (h : gmap loc object) (c : value) (name : string) : completion callee :=
  f ← get h c name;
  match f with
  | VUndefined | VNull => Throw "TypeError"
  | VFunction e => Normal (Builtin e)
  | VObject _ =>
      own_call ← get h f "call";
      Normal (match own_call with
              | VFunction e => OwnMethod e
              | _ => NotCallable
              end)
  | _ => Normal NotCallable
  end.

(** ** The class *)

Module Interaction.

(** The fields of an instance; [None] is a property that was never
    assigned (reading it yields [undefined]). [frozen] tells whether a
    caller has frozen the instance since it was built, after which none of
    its properties can be assigned. *)
Record t := {
  id : value;
  _client : value;
  applicationId : value;
  channelId : option value;
  data : option value;
  guildId : option value;
  member : option Member;
  message : option Message;
  token : option value;
  type : value;
  version : value;
  frozen : bool
}.

(** The instance after [this.type = x]. *)
Definition retype (x : value) (r : t) : t :=
  {| id := id r; _client := _client r; applicationId := applicationId r;
     channelId := channelId r; data := data r; guildId := guildId r;
     member := member r; message := message r; token := token r;
     type := x; version := version r; frozen := frozen r |}.

(** Modelled from the spec: the constructor of the superclass [Base] is not
    among the sources; the record's [id] is the identifier it is given. *)
Definition Base_constructor (i : value) : value := i.

(** [if (v !== undefined) this.f = mk v] *)
Definition assign_if_defined {A} (mk : value -> A) (v : value) : option A :=
  if strict_ne v VUndefined then Some (mk v) else None.

(** [constructor(data, client)] *)
Definition constructor (h : gmap loc object) (data client : value) : completion t :=
  data_id ← get h data "id";
  let this_id := Base_constructor data_id in
  application_id ← get h data "application_id";
  channel_id ← get h data "channel_id";
  data_data ← get h data "data";
  guild_id ← get h data "guild_id";
  data_member ← get h data "member";
  data_message ← get h data "message";
  data_token ← get h data "token";
  data_type ← get h data "type";
  data_version ← get h data "version";
  mret {| id := this_id;
          _client := client;
          applicationId := application_id;
          channelId := assign_if_defined (fun v => v) channel_id;
          data := assign_if_defined (fun v => v) data_data;
          guildId := assign_if_defined (fun v => v) guild_id;
          member := assign_if_defined new_Member data_member;
          message := assign_if_defined (fun v => new_Message v client) data_message;
          token := assign_if_defined (fun v => v) data_token;
          type := data_type;
          version := data_version;
          frozen := false |}.

(** *** Machine state and the monad of the methods *)

(** The interaction, the ordinary objects, and the calls received by the
    client so far. [VInteraction] refers to [this], [VObject l] to the
    object at [l] of [heap]. *)
Record state := {
  this : t;
  heap : gmap loc object;
  calls : list call
}.

Definition M (A : Type) : Type := state -> completion A * state.

#[global] Instance M_ret : MRet M := fun A a st => (Normal a, st).
#[global] Instance M_bind : MBind M := fun A B f m st =>
  match m st with
  | (Normal a, st') => f a st'
  | (Throw e, st') => (Throw e, st')
  end.

Definition get_this : M t := fun st => (Normal (this st), st).

Definition throw {A} (name : string) : M A := fun st => (Throw name, st).

(** [this.f] for a field that may never have been assigned *)
Definition read (f : option value) : value := default VUndefined f.

(** An object literal [{ ... }]: a fresh object on the heap. *)
Definition new_object (ps : gmap string value) : M value := fun st =>
  let l := fresh (dom (heap st)) in
  (Normal (VObject l),
   {| this := this st; heap := <[l := literal ps]> (heap st); calls := calls st |}).

(** [v.type = x] in strict mode, the one assignment the methods make to an
    object they are given. It throws on a primitive, on an object whose
    [type] cannot be assigned and on a frozen interaction; otherwise it
    writes in place: into the object of the heap, or into the interaction
    when [v] is the interaction itself. (A function is never assigned to:
    the methods replace it first; its properties are not modelled.) *)
Definition set_type (v x : value) : M unit := fun st =>
  match v with
  | VObject l =>
      match heap st !! l with
      | Some o =>
          match assign "type" x o with
          | Some o' =>
              (Normal (),
               {| this := this st; heap := <[l := o']> (heap st); calls := calls st |})
          | None => (Throw "TypeError", st)
          end
      | None => (Normal (), st)
      end
  | VInteraction =>
      if frozen (this st) then (Throw "TypeError", st)
      else (Normal (),
            {| this := retype x (this st); heap := heap st; calls := calls st |})
  | VFunction _ => (Normal (), st)
  | _ => (Throw "TypeError", st)
  end.

(** The client performs call [c] and returns its promise. *)
Definition dispatch (c : call) : M promise := fun st =>
  (Normal (Promise (length (calls st))),
   {| this := this st; heap := heap st; calls := calls st ++ [c] |}).

(** The call proper, after the arguments are evaluated: [f.call(thisArg,
    ...args)] applies a function to [args]; an own method [call] receives
    [thisArg] as its first argument; anything else is not a function. *)
Definition apply_callee (k : callee) (this_arg : value) (args : list value) : M promise :=
  match k with
  | Builtin e => dispatch (request e args)
  | OwnMethod e => dispatch (request e (this_arg :: args))
  | NotCallable => throw "TypeError"
  end.

(** [c.name.call]: the callee is looked up before the arguments are
    evaluated. *)
Definition method_call (c : value) (name : string)
    : M (value -> list value -> M promise) := fun st =>
  match resolve (heap st) c name with
  | Normal k => (Normal (apply_callee k), st)
  | Throw e => (Throw e, st)
  end.

(** [c] has the client's function [e] under [name]. *)
Definition has_method (h : gmap loc object) (c : value) (name : string) (e : endpoint) : bool :=
  bool_decide (resolve h c name = Normal (Builtin e)).

(** [c] is a REST client: it has the four functions the class calls. *)
Definition has_client (h : gmap loc object) (c : value) : bool :=
  has_method h c "createInteractionResponse" InteractionResponse
  && has_method h c "executeWebhook" Webhook
  && has_method h c "editWebhookMessage" WebhookMessageEdit
  && has_method h c "deleteWebhookMessage" WebhookMessageDelete.

(** *** The methods *)

Import Constants.

(** [acknowledge()] *)
Definition acknowledge : M promise :=
  self ← get_this;
  send ← method_call (_client self) "createInteractionResponse";
  body ← new_object {[ "type" := InteractionResponseType.DEFERRED_UPDATE_MESSAGE ]};
  send (_client self) [id self; read (token self); body].

(** [createFollowup(options)] *)
Definition createFollowup (options : value) : M promise :=
  self ← get_this;
  send ← method_call (_client self) "executeWebhook";
  send (_client self) [applicationId self; read (token self); options].

(** The shared prologue of [createMessage] and [editParent]:
    [if (options !== undefined) { if (typeof options !== "object" ||
    options === null) options = {}; options.type = ty; }] *)
Definition stamp (ty : value) (options : value) : M value :=
  if strict_ne options VUndefined then
    options ← (if negb (String.eqb (typeof options) "object")
                  || bool_decide (options = VNull)
               then new_object ∅
               else mret options);
    set_type options ty;;
    mret options
  else mret options.

(** [createMessage(options)] *)
Definition createMessage (options : value) : M promise :=
  options ← stamp InteractionResponseType.CHANNEL_MESSAGE_WITH_SOURCE options;
  self ← get_this;
  send ← method_call (_client self) "createInteractionResponse";
  send (_client self) [id self; read (token self); options].

(** [defer(flags)] *)
Definition defer (flags : value) : M promise :=
  self ← get_this;
  send ← method_call (_client self) "createInteractionResponse";
  body ← new_object {[ "type" := InteractionResponseType.DEFERRED_CHANNEL_MESSAGE_WITH_SOURCE;
                       "flags" := js_or flags (VNumber 0) ]};
  send (_client self) [id self; read (token self); body].

(** [deferUpdate()] *)
Definition deferUpdate : M promise :=
  self ← get_this;
  send ← method_call (_client self) "createInteractionResponse";
  body ← new_object {[ "type" := InteractionResponseType.DEFERRED_UPDATE_MESSAGE ]};
  send (_client self) [id self; read (token self); body].

(** [delete(messageId)] *)
Definition delete (messageId : value) : M promise :=
  self ← get_this;
  send ← method_call (_client self) "deleteWebhookMessage";
  send (_client self) [applicationId self; read (token self); messageId].

(** [edit(messageId, options)] *)
Definition edit (messageId options : value) : M promise :=
  self ← get_this;
  send ← method_call (_client self) "editWebhookMessage";
  send (_client self) [applicationId self; read (token self); messageId; options].

(** [editParent(options)] *)
Definition editParent (options : value) : M promise :=
  options ← stamp InteractionResponseType.UPDATE_MESSAGE options;
  self ← get_this;
  send ← method_call (_client self) "createInteractionResponse";
  send (_client self) [id self; read (token self); options].

End Interaction.

(** ** Vocabulary of the statements *)

Module Protocol.
Import Interaction.

(** The five operations that send the initial response. *)
Inductive initial_response :=
  | Acknowledge
  | Defer (flags : value)
  | DeferUpdate
  | CreateMessage (options : value)
  | EditParent (options : value).

Definition run (op : initial_response) : M promise :=
  match op with
  | Acknowledge => acknowledge
  | Defer flags => defer flags
  | DeferUpdate => deferUpdate
  | CreateMessage options => createMessage options
  | EditParent options => editParent options
  end.

(** The interaction's client is a REST client of the heap. *)
Definition ready (st : state) : Prop :=
  has_client (heap st) (_client (this st)) = true.

(** The interaction's client has [createInteractionResponse], whatever else
    it has or lacks. *)
Definition responds (st : state) : Prop :=
  has_method (heap st) (_client (this st)) "createInteractionResponse" InteractionResponse
  = true.

(** The request every initial response is sent with. *)
Definition response (st : state) (body : value) : call :=
  createInteractionResponse (id (this st)) (read (token (this st))) body.

(** What a caller reads in the field [k] of the object it holds as [v]. *)
Definition field (st : state) (v : value) (k : string) : completion value :=
  get (heap st) v k.

(** A caller that invokes the methods one after the other, catching what
    each throws: the completions in order, and the final state. *)
Fixpoint run_all (ms : list (M promise)) (st : state) : list (completion promise) * state :=
  match ms with
  | [] => ([], st)
  | m :: ms' =>
      let '(r, st1) := m st in
      let '(rs, st2) := run_all ms' st1 in
      (r :: rs, st2)
  end.

(** Values other than objects that [createMessage] and [editParent]
    replace by a fresh object (every defined value that is not an object). *)
Definition replaced (v : value) : Prop :=
  v ≠ VUndefined ∧ (typeof v ≠ "object" ∨ v = VNull).

(** The options [v] let [type] be written: an object of the heap whose
    [type] is an ordinary writable property, or which is extensible and
    has none; the interaction itself unless frozen; and every value that is
    not an object (it is not written to). *)
Definition accepts (st : state) (v : value) : Prop :=
  match v with
  | VObject l => ∃ o, heap st !! l = Some o ∧ writable "type" o = true
  | VInteraction => frozen (this st) = false
  | _ => True
  end.

(** The options given to an initial response, if it takes any. *)
Definition options_of (op : initial_response) : value :=
  match op with
  | CreateMessage options | EditParent options => options
  | _ => VUndefined
  end.
End Protocol.

(** ** Concrete inputs *)

Module Sample.
Import Interaction.

Definition payload (ty : Z) : object :=
  literal {[ "id" := VString "1001"; "application_id" := VString "app";
             "token" := VString "tok"; "type" := VNumber ty;
             "version" := VNumber 1 ]}.

(** A REST client. *)
Definition client : object :=
  literal {[ "createInteractionResponse" := VFunction InteractionResponse;
             "executeWebhook" := VFunction Webhook;
             "editWebhookMessage" := VFunction WebhookMessageEdit;
             "deleteWebhookMessage" := VFunction WebhookMessageDelete ]}.

(** The client at 1, a payload of type [ty] at 2, the caller's
    [{content: "hi"}] at 3 and [{content: "x"}] at 4. *)
Definition store (ty : Z) : gmap loc object :=
  {[ 1%positive := client;
     2%positive := payload ty;
     3%positive := literal {[ "content" := VString "hi" ]};
     4%positive := literal {[ "content" := VString "x" ]} ]}.

Definition record (ty : Z) : t :=
  {| id := VString "1001"; _client := VObject 1; applicationId := VString "app";
     channelId := None; data := None; guildId := None; member := None;
     message := None; token := Some (VString "tok"); type := VNumber ty;
     version := VNumber 1; frozen := false |}.

(** A freshly constructed interaction of type [ty], nothing sent yet. *)
Definition fresh_state (ty : Z) : state :=
  {| this := record ty; heap := store ty; calls := [] |}.

Definition ping := fresh_state 1.
Definition slash_command := fresh_state 2.
Definition message_component := fresh_state 3.
End Sample.

(** ** Callers of the methods *)

Module Caller.
Import Interaction Protocol.

(** The three methods that use the token after the initial response. *)
Inductive later :=
  | CreateFollowup (options : value)
  | Edit (messageId options : value)
  | Delete (messageId : value).

Definition run_later (f : later) : M promise :=
  match f with
  | CreateFollowup options => createFollowup options
  | Edit messageId options => edit messageId options
  | Delete messageId => delete messageId
  end.

(** The webhook call each of them makes. *)
Definition later_call (st : state) (f : later) : call :=
  match f with
  | CreateFollowup options =>
      executeWebhook (applicationId (this st)) (read (token (this st))) options
  | Edit messageId options =>
      editWebhookMessage (applicationId (this st)) (read (token (this st))) messageId options
  | Delete messageId =>
      deleteWebhookMessage (applicationId (this st)) (read (token (this st))) messageId
  end.

(** Any of the eight methods. *)
Inductive method :=
  | Initial (op : initial_response)
  | Later (f : later).

Definition invoke (m : method) : M promise :=
  match m with
  | Initial op => run op
  | Later f => run_later f
  end.

(** The property of the client that [m] looks up, and the function of a
    REST client found there. *)
Definition method_name (m : method) : string :=
  match m with
  | Initial _ => "createInteractionResponse"
  | Later (CreateFollowup _) => "executeWebhook"
  | Later (Edit _ _) => "editWebhookMessage"
  | Later (Delete _) => "deleteWebhookMessage"
  end.

Definition method_endpoint (m : method) : endpoint :=
  match m with
  | Initial _ => InteractionResponse
  | Later (CreateFollowup _) => Webhook
  | Later (Edit _ _) => WebhookMessageEdit
  | Later (Delete _) => WebhookMessageDelete
  end.

(** The client has the function that [m] needs. *)
Definition served (st : state) (m : method) : Prop :=
  has_method (heap st) (_client (this st)) (method_name m) (method_endpoint m) = true.

(** Nothing can be called under [name] of the client: the lookup throws,
    or finds something that is not a function. *)
Definition unserved (st : state) (name : string) : Prop :=
  match resolve (heap st) (_client (this st)) name with
  | Normal (Builtin _) | Normal (OwnMethod _) => False
  | _ => True
  end.

(** None of the four functions can be called on the client. *)
Definition silent (st : state) : Prop :=
  unserved st "createInteractionResponse" ∧ unserved st "executeWebhook"
  ∧ unserved st "editWebhookMessage" ∧ unserved st "deleteWebhookMessage".

(** The options that [m] writes [type] to, if it takes any. *)
Definition written_by (m : method) : value :=
  match m with
  | Initial op => options_of op
  | Later _ => VUndefined
  end.

(** The call by which the client hears of [m]: an initial response under
    the interaction's id, a later call under the application's id. *)
Definition sent_by (st : state) (m : method) (c : call) : Prop :=
  match m with
  | Initial _ => ∃ body, c = response st body
  | Later f => c = later_call st f
  end.

(** [m] is [createMessage] or [editParent] called with the object at [l]. *)
Definition stamps (m : method) (l : loc) : Prop :=
  m = Initial (CreateMessage (VObject l)) ∨ m = Initial (EditParent (VObject l)).

(** The heap after [type] of the object at [l] is assigned [ty]; the heap
    as it is when there is no such object or the assignment is refused. *)
Definition stamped (ty : value) (l : loc) (h : gmap loc object) : gmap loc object :=
  match h !! l with
  | Some o =>
      match assign "type" ty o with
      | Some o' => <[l := o']> h
      | None => h
      end
  | None => h
  end.

(** What a method may do to the heap [h]: nothing, allocate the literal of
    a request, or assign [type] of the options object it was given. *)
Inductive heap_step (m : method) (h : gmap loc object) : gmap loc object → Prop :=
  | heap_kept : heap_step m h h
  | heap_alloc ps :
      (∀ k, is_Some (ps !! k) → k = "type" ∨ k = "flags") →
      heap_step m h (<[fresh (dom h) := literal ps]> h)
  | heap_stamp l ty o o' :
      stamps m l → h !! l = Some o → assign "type" ty o = Some o' →
      heap_step m h (<[l := o']> h).

(** What a method may do to the interaction [r]: nothing, or assign its
    [type] when it is itself the options object. *)
Inductive this_step (m : method) (r : t) : t → Prop :=
  | this_kept : this_step m r r
  | this_stamp ty : written_by m = VInteraction → this_step m r (retype ty r).

(** The payload's field [k] as the constructor reads it. *)
Definition payload_field (o : object) (k : string) : value :=
  default VUndefined (props o !! k).

(** [if (v !== undefined)]: the property is assigned, or left out. *)
Definition when_defined (v : value) : option value :=
  if decide (v = VUndefined) then None else Some v.

(** A payload without token or channel, from a direct message
    ([guild_id: null]), carrying a member and a message. *)
Definition sparse_payload : object :=
  literal {[ "id" := VString "1002"; "application_id" := VString "app";
             "type" := VNumber 3; "guild_id" := VNull;
             "member" := VObject 6; "message" := VObject 7 ]}.

(** The heap of [Sample.store 3] with the sparse payload at 5. *)
Definition sparse_store : gmap loc object :=
  <[5%positive := sparse_payload]> (Sample.store 3).

(** An interaction built with no client at all. *)
Definition orphan : state :=
  {| this := {| id := VString "1001"; _client := VUndefined;
                applicationId := VString "app";
                channelId := None; data := None; guildId := None; member := None;
                message := None; token := Some (VString "tok"); type := VNumber 3;
                version := VNumber 1; frozen := false |};
     heap := Sample.store 3; calls := [] |}.

(** A fresh Ping interaction whose caller also holds
    [Object.freeze({content: "hi"})] at 5 and, at 6, an object whose [type]
    is an accessor: its getter returns 9 and its setter stores nothing. *)
Definition guarded : state :=
  {| this := Sample.record 1;
     heap := <[5%positive := frozen_literal {[ "content" := VString "hi" ]}]>
               (<[6%positive := {| props := {[ "type" := VNumber 9 ]};
                                   attrs := {[ "type" := Setter ]};
                                   extensible := true |}]> (Sample.store 1));
     calls := [] |}.

(** A fresh Slash Command interaction whose client, at 5, has
    [executeWebhook] and nothing else. *)
Definition webhook_only : state :=
  {| this := {| id := VString "1001"; _client := VObject 5;
                applicationId := VString "app";
                channelId := None; data := None; guildId := None; member := None;
                message := None; token := Some (VString "tok"); type := VNumber 2;
                version := VNumber 1; frozen := false |};
     heap := <[5%positive := literal {[ "executeWebhook" := VFunction Webhook ]}]>
               (Sample.store 2);
     calls := [] |}.
End Caller.

(** * Properties *)

Import Interaction Protocol.
Import Caller.

(** ** Objects and the heap under the methods' primitives *)

Lemma fresh_unused (h : gmap loc object) : h !! fresh (dom h) = None.
Proof. apply not_elem_of_dom, is_fresh. Qed.

Lemma lookup_fresh_other (h : gmap loc object) x l o :
  h !! l = Some o → <[fresh (dom h) := x]> h !! l = Some o.
Proof.
  intros H. rewrite lookup_insert_ne; [done|].
  intros <-. by rewrite fresh_unused in H.
Qed.

Lemma assign_writable k v o :
  writable k o = true → assign k v o = Some (set_own k v o).
Proof.
  unfold writable, assign. intros [Ha Hb]%andb_prop.
  apply bool_decide_eq_true in Ha. by rewrite Ha, Hb.
Qed.

Lemma writable_set_own k v o : writable k o = true → writable k (set_own k v o) = true.
Proof.
  unfold writable; simpl. intros [Ha _]%andb_prop. rewrite Ha. simpl.
  rewrite lookup_insert_eq. by rewrite bool_decide_eq_true_2 by eauto.
Qed.

Lemma assign_props k v o o' k' :
  assign k v o = Some o' → k' ≠ k → props o' !! k' = props o !! k'.
Proof.
  unfold assign. intros H Hk.
  destruct (attrs o !! k) as [[]|]; simplify_eq; [done|].
  destruct (_ || _); simplify_eq. simpl. by rewrite lookup_insert_ne.
Qed.

(** Assigning twice is assigning the last value. *)
Lemma assign_assign k v v' o o' :
  assign k v o = Some o' → assign k v' o' = assign k v' o.
Proof.
  unfold assign. intros H.
  destruct (attrs o !! k) as [[]|] eqn:Ea; simplify_eq; [by rewrite Ea|].
  destruct (_ || _) eqn:Eb; simplify_eq. simpl. rewrite Ea, lookup_insert_eq.
  rewrite bool_decide_eq_true_2 by eauto. simpl.
  unfold set_own; simpl. by rewrite insert_insert_eq.
Qed.

Lemma resolve_throws h c name e : resolve h c name = Throw e → e = "TypeError".
Proof.
  unfold resolve. destruct c; simpl; try congruence;
    repeat (match goal with |- context [match ?x with _ => _ end] => destruct x end;
            simpl; try congruence).
Qed.

Lemma has_method_resolve h c name e :
  has_method h c name e = true → resolve h c name = Normal (Builtin e).
Proof. unfold has_method. apply bool_decide_eq_true. Qed.

Lemma ready_serves st m : ready st → served st m.
Proof.
  unfold ready, has_client, served.
  intros [[[H1 H2]%andb_prop H3]%andb_prop H4]%andb_prop.
  by destruct m as [op|[| |]].
Qed.

Lemma ready_responds st : ready st → responds st.
Proof. intros H. exact (ready_serves st (Initial Acknowledge) H). Qed.

(** A step of the heap changes no property but [type], and adds none but
    [type] and [flags]. *)
Lemma heap_step_get m h h' v k :
  heap_step m h h' → k ≠ "type" → k ≠ "flags" → get h' v k = get h v k.
Proof.
  intros Hstep Hk1 Hk2. destruct v as [| | | | | |l| |]; try reflexivity. simpl. f_equal.
  destruct Hstep as [|ps Hps|l0 ty o o' _ Ho Ha]; [done| |].
  - destruct (decide (fresh (dom h) = l)) as [<-|Hne].
    + rewrite lookup_insert_eq, fresh_unused. simpl.
      destruct (ps !! k) eqn:E; [|done]. destruct (Hps k); by eauto.
    + by rewrite lookup_insert_ne.
  - destruct (decide (l0 = l)) as [<-|Hne].
    + rewrite lookup_insert_eq, Ho. by rewrite (assign_props _ _ _ _ _ Ha).
    + by rewrite lookup_insert_ne.
Qed.

Lemma heap_step_resolve m h h' c name :
  heap_step m h h' → name ≠ "type" → name ≠ "flags" →
  resolve h' c name = resolve h c name.
Proof.
  intros Hstep Hk1 Hk2. unfold resolve.
  rewrite (heap_step_get _ _ _ _ _ Hstep Hk1 Hk2).
  destruct (get h c name) as [f|]; simpl; [|done].
  destruct f; try done. by rewrite (heap_step_get _ _ _ _ "call" Hstep).
Qed.

Lemma heap_step_dom m h h' : heap_step m h h' → dom h ⊆ dom h'.
Proof.
  destruct 1; [done | rewrite dom_insert_L; set_solver | rewrite dom_insert_L; set_solver].
Qed.

Lemma heap_step_frame m h h' l o :
  heap_step m h h' → ¬ stamps m l → h !! l = Some o → h' !! l = Some o.
Proof.
  destruct 1 as [|ps|l' ty o1 o' Hs]; intros Hm Hl; [done | by apply lookup_fresh_other |].
  rewrite lookup_insert_ne; [done|]. by intros ->.
Qed.

Lemma heap_step_writable m h h' l o :
  heap_step m h h' → h !! l = Some o → writable "type" o = true →
  ∃ o', h' !! l = Some o' ∧ writable "type" o' = true.
Proof.
  destruct 1 as [|ps|l' ty o1 o' Hs Ho1 Ha]; intros Hl Hw; [by eauto | |].
  - exists o. split; [by apply lookup_fresh_other | done].
  - destruct (decide (l' = l)) as [->|Hne].
    + rewrite Ho1 in Hl. simplify_eq. rewrite assign_writable in Ha by done.
      simplify_eq. rewrite lookup_insert_eq. eexists. split; [done|].
      by apply writable_set_own.
    + rewrite lookup_insert_ne by done. eauto.
Qed.

(** What the steps keep of the interaction. *)
Lemma this_step_fields m r r' :
  this_step m r r' →
  id r' = id r ∧ token r' = token r ∧ applicationId r' = applicationId r
  ∧ _client r' = _client r ∧ frozen r' = frozen r ∧ r' = retype (type r') r.
Proof. destruct 1; [by destruct r | done]. Qed.

(** ** The prologue of [createMessage] and [editParent] *)

Lemma stamp_undefined ty st : stamp ty VUndefined st = (Normal VUndefined, st).
Proof. reflexivity. Qed.

Lemma stamp_object ty l st :
  stamp ty (VObject l) st =
  match heap st !! l with
  | Some o =>
      match assign "type" ty o with
      | Some o' =>
          (Normal (VObject l),
           {| this := this st; heap := <[l := o']> (heap st); calls := calls st |})
      | None => (Throw "TypeError", st)
      end
  | None => (Normal (VObject l), st)
  end.
Proof.
  unfold stamp, mbind, M_bind, set_type; simpl.
  destruct (heap st !! l) as [o|]; [|done]. by destruct (assign "type" ty o).
Qed.

Lemma stamp_interaction ty st :
  stamp ty VInteraction st =
  if frozen (this st) then (Throw "TypeError", st)
  else (Normal VInteraction,
        {| this := retype ty (this st); heap := heap st; calls := calls st |}).
Proof.
  unfold stamp, mbind, M_bind, set_type; simpl. by destruct (frozen (this st)).
Qed.

Lemma stamp_replaced ty v st :
  replaced v →
  stamp ty v st =
  (Normal (VObject (fresh (dom (heap st)))),
   {| this := this st;
      heap := <[fresh (dom (heap st)) := literal {[ "type" := ty ]}]> (heap st);
      calls := calls st |}).
Proof.
  intros [Hdef Hprim].
  assert (stamp ty v st =
          (x ← new_object ∅; set_type x ty;; mret x) st) as ->.
  { destruct v; try congruence; try (by destruct Hprim); reflexivity. }
  unfold mbind, M_bind, new_object, set_type; simpl.
  rewrite lookup_insert_eq. simpl.
  rewrite (assign_writable "type" ty (literal ∅)) by done.
  rewrite insert_insert_eq. unfold set_own, literal; simpl.
  by rewrite insert_empty.
Qed.

(** Every value is [undefined], an object of the heap, the interaction, or
    replaced by a fresh object. *)
Lemma options_cases v :
  v = VUndefined ∨ (∃ l, v = VObject l) ∨ v = VInteraction ∨ replaced v.
Proof.
  destruct v; eauto; right; right; right; (split; [done|]); (by left) || (by right).
Qed.

(** The prologue as a step of the state, for the method [m] it opens. *)
Lemma stamp_effect ty m options st :
  m = Initial (CreateMessage options) ∨ m = Initial (EditParent options) →
  ∃ r st1,
    stamp ty options st = (r, st1)
    ∧ calls st1 = calls st
    ∧ this_step m (this st) (this st1)
    ∧ heap_step m (heap st) (heap st1)
    ∧ ((∃ v, r = Normal v) ∨ r = Throw "TypeError" ∧ st1 = st)
    ∧ (accepts st options → ∃ v, r = Normal v).
Proof.
  intros Hm.
  assert (written_by m = options) as Hw by (by destruct Hm as [-> | ->]).
  destruct (options_cases options) as [->|[[l ->]|[->|Hv]]].
  - rewrite stamp_undefined. eexists _, _. split; [done|].
    split; [done|]. split; [constructor|]. split; [constructor|]. eauto.
  - rewrite stamp_object. destruct (heap st !! l) as [o|] eqn:Ho.
    + destruct (assign "type" ty o) as [o'|] eqn:Ha.
      * eexists _, _. split; [done|]. split; [done|]. split; [constructor|].
        split; [by eapply heap_stamp|]. eauto.
      * eexists _, _. split; [done|]. split; [done|]. split; [constructor|].
        split; [constructor|]. split; [by right|].
        intros (o1 & Ho1 & Hw1). simplify_eq.
        rewrite assign_writable in Ha by done. done.
    + eexists _, _. split; [done|]. split; [done|]. split; [constructor|].
      split; [constructor|]. eauto.
  - rewrite stamp_interaction. destruct (frozen (this st)) eqn:Hf.
    + eexists _, _. split; [done|]. split; [done|]. split; [constructor|].
      split; [constructor|]. split; [by right|]. simpl. congruence.
    + eexists _, _. split; [done|]. split; [done|]. split; [by apply this_stamp|].
      split; [constructor|]. eauto.
  - rewrite stamp_replaced by done. eexists _, _. split; [done|]. split; [done|].
    split; [constructor|]. split.
    { apply heap_alloc. intros k [x Hk]. left.
      destruct (decide (k = "type")) as [->|Hne]; [done|].
      by rewrite lookup_singleton_ne in Hk. }
    eauto.
Qed.

(** ** Each method by the lookup on its client *)

Ltac by_lookup :=
  unfold mbind, M_bind, get_this, method_call, new_object; simpl;
  by destruct (resolve _ _ _).

Lemma acknowledge_eq st :
  acknowledge st =
  match resolve (heap st) (_client (this st)) "createInteractionResponse" with
  | Normal k =>
      apply_callee k (_client (this st))
        [id (this st); read (token (this st)); VObject (fresh (dom (heap st)))]
        {| this := this st;
           heap := <[fresh (dom (heap st)) := literal {[ "type" := VNumber 6 ]}]> (heap st);
           calls := calls st |}
  | Throw e => (Throw e, st)
  end.
Proof. unfold acknowledge. by_lookup. Qed.

Lemma deferUpdate_eq st : deferUpdate st = acknowledge st.
Proof. reflexivity. Qed.

Lemma defer_eq flags st :
  defer flags st =
  match resolve (heap st) (_client (this st)) "createInteractionResponse" with
  | Normal k =>
      apply_callee k (_client (this st))
        [id (this st); read (token (this st)); VObject (fresh (dom (heap st)))]
        {| this := this st;
           heap := <[fresh (dom (heap st)) :=
                       literal {[ "type" := VNumber 5; "flags" := js_or flags (VNumber 0) ]}]>
                     (heap st);
           calls := calls st |}
  | Throw e => (Throw e, st)
  end.
Proof. unfold defer. by_lookup. Qed.

Lemma run_later_eq f st :
  run_later f st =
  match resolve (heap st) (_client (this st)) (method_name (Later f)) with
  | Normal k =>
      apply_callee k (_client (this st))
        (match f with
         | CreateFollowup options =>
             [applicationId (this st); read (token (this st)); options]
         | Edit messageId options =>
             [applicationId (this st); read (token (this st)); messageId; options]
         | Delete messageId =>
             [applicationId (this st); read (token (this st)); messageId]
         end) st
  | Throw e => (Throw e, st)
  end.
Proof.
  destruct f; simpl; unfold createFollowup, edit, delete; by_lookup.
Qed.

(** [createMessage] and [editParent] after their prologue. *)
Lemma stamped_eq ty options st :
  (options' ← stamp ty options;
   self ← get_this;
   send ← method_call (_client self) "createInteractionResponse";
   send (_client self) [id self; read (token self); options']) st =
  match stamp ty options st with
  | (Normal options', st1) =>
      match resolve (heap st1) (_client (this st1)) "createInteractionResponse" with
      | Normal k =>
          apply_callee k (_client (this st1))
            [id (this st1); read (token (this st1)); options'] st1
      | Throw e => (Throw e, st1)
      end
  | (Throw e, st1) => (Throw e, st1)
  end.
Proof.
  unfold mbind at 1, M_bind at 1. destruct (stamp ty options st) as [[v|e] st1]; [|done].
  by_lookup.
Qed.

(** With [createInteractionResponse] on the client, the literal-building
    methods. *)
Lemma acknowledge_ready st :
  responds st →
  acknowledge st =
  (Normal (Promise (length (calls st))),
   {| this := this st;
      heap := <[fresh (dom (heap st)) := literal {[ "type" := VNumber 6 ]}]> (heap st);
      calls := calls st ++ [response st (VObject (fresh (dom (heap st))))] |}).
Proof. intros H%has_method_resolve. by rewrite acknowledge_eq, H. Qed.

Lemma defer_ready flags st :
  responds st →
  defer flags st =
  (Normal (Promise (length (calls st))),
   {| this := this st;
      heap := <[fresh (dom (heap st)) :=
                  literal {[ "type" := VNumber 5; "flags" := js_or flags (VNumber 0) ]}]>
                (heap st);
      calls := calls st ++ [response st (VObject (fresh (dom (heap st))))] |}).
Proof. intros H%has_method_resolve. by rewrite defer_eq, H. Qed.

(** The prologue does not move the client's functions. *)
Lemma stamp_keeps_lookup ty options st r st1 name :
  stamp ty options st = (r, st1) → name ≠ "type" → name ≠ "flags" →
  resolve (heap st1) (_client (this st1)) name
  = resolve (heap st) (_client (this st)) name.
Proof.
  intros E Hk1 Hk2.
  destruct (stamp_effect ty (Initial (CreateMessage options)) options st)
    as (r' & st1' & E' & _ & Hthis & Hheap & _); [by left|].
  rewrite E in E'. simplify_eq.
  destruct (this_step_fields _ _ _ Hthis) as (_ & _ & _ & -> & _).
  by eapply heap_step_resolve.
Qed.

(** [createMessage] and [editParent], with [createInteractionResponse] on
    the client, by the kind of [options]. *)
Ltac by_stamp H lem :=
  apply has_method_resolve in H;
  rewrite stamped_eq, lem; simpl; rewrite ?H; try done.

Lemma createMessage_undefined st :
  responds st →
  createMessage VUndefined st =
  (Normal (Promise (length (calls st))),
   {| this := this st; heap := heap st;
      calls := calls st ++ [response st VUndefined] |}).
Proof. intros H. unfold createMessage. by_stamp H stamp_undefined. Qed.

Lemma editParent_undefined st :
  responds st →
  editParent VUndefined st =
  (Normal (Promise (length (calls st))),
   {| this := this st; heap := heap st;
      calls := calls st ++ [response st VUndefined] |}).
Proof. intros H. unfold editParent. by_stamp H stamp_undefined. Qed.

Lemma lookup_after_alloc st x name :
  name ≠ "type" → name ≠ "flags" →
  resolve (<[fresh (dom (heap st)) := literal {[ "type" := x ]}]> (heap st))
    (_client (this st)) name
  = resolve (heap st) (_client (this st)) name.
Proof.
  intros Hk Hf.
  apply (heap_step_resolve (Initial Acknowledge)); [|done..].
  apply heap_alloc. intros k [y Hy]. left.
  destruct (decide (k = "type")) as [->|Hne]; [done|].
  by rewrite lookup_singleton_ne in Hy.
Qed.

Lemma createMessage_replaced v st :
  responds st → replaced v →
  createMessage v st =
  (Normal (Promise (length (calls st))),
   {| this := this st;
      heap := <[fresh (dom (heap st)) := literal {[ "type" := VNumber 4 ]}]> (heap st);
      calls := calls st ++ [response st (VObject (fresh (dom (heap st))))] |}).
Proof.
  intros H Hv. unfold createMessage. apply has_method_resolve in H.
  rewrite stamped_eq, (stamp_replaced _ v st Hv). simpl.
  rewrite lookup_after_alloc by done. by rewrite H.
Qed.

Lemma editParent_replaced v st :
  responds st → replaced v →
  editParent v st =
  (Normal (Promise (length (calls st))),
   {| this := this st;
      heap := <[fresh (dom (heap st)) := literal {[ "type" := VNumber 7 ]}]> (heap st);
      calls := calls st ++ [response st (VObject (fresh (dom (heap st))))] |}).
Proof.
  intros H Hv. unfold editParent. apply has_method_resolve in H.
  rewrite stamped_eq, (stamp_replaced _ v st Hv). simpl.
  rewrite lookup_after_alloc by done. by rewrite H.
Qed.

(** ** Every method as a step of the state *)

Lemma keys_of_acknowledge (x : value) k :
  is_Some (({[ "type" := x ]} : gmap string value) !! k) → k = "type" ∨ k = "flags".
Proof.
  intros [y Hy]. left. destruct (decide (k = "type")) as [->|Hne]; [done|].
  by rewrite lookup_singleton_ne in Hy.
Qed.

Lemma keys_of_defer (x y : value) k :
  is_Some (({[ "type" := x; "flags" := y ]} : gmap string value) !! k) →
  k = "type" ∨ k = "flags".
Proof.
  intros [z Hz]. destruct (decide (k = "type")) as [->|Hne]; [by left|].
  rewrite lookup_insert_ne in Hz by done.
  destruct (decide (k = "flags")) as [->|Hne']; [by right|].
  by rewrite lookup_singleton_ne in Hz.
Qed.

(** The call proper: [st0] is the state in which the method started and
    looked up its callee, [st1] the state once the arguments are
    evaluated. *)
Lemma send_effect m st0 st1 k args :
  resolve (heap st0) (_client (this st0)) (method_name m) = Normal k →
  calls st1 = calls st0 →
  ∃ r st',
    apply_callee k (_client (this st1)) args st1 = (r, st')
    ∧ this st' = this st1
    ∧ heap st' = heap st1
    ∧ (r = Normal (Promise (length (calls st0)))
         ∧ (∃ c, calls st' = calls st0 ++ [c]
                 ∧ (served st0 m → c = request (method_endpoint m) args))
       ∨ r = Throw "TypeError" ∧ calls st' = calls st0)
    ∧ (served st0 m → ∃ p, r = Normal p)
    ∧ (unserved st0 (method_name m) → r = Throw "TypeError").
Proof.
  intros E Hc.
  assert (served st0 m → k = Builtin (method_endpoint m)) as Hs.
  { unfold served, has_method. rewrite E. intros H%bool_decide_eq_true. by simplify_eq. }
  assert (unserved st0 (method_name m) → k = NotCallable) as Hu.
  { unfold unserved. rewrite E. by destruct k. }
  destruct k as [e|e|]; simpl; unfold dispatch, throw; rewrite ?Hc;
    eexists _, _; (split; [done|]); (split; [done|]); (split; [done|]); simpl.
  - split; [left; split; [done|]; eexists; split; [done|]|split; [eauto|]].
    + intros H. specialize (Hs H). by simplify_eq.
    + intros H. by specialize (Hu H).
  - split; [left; split; [done|]; eexists; split; [done|]|split; [eauto|]].
    + intros H. by specialize (Hs H).
    + intros H. by specialize (Hu H).
  - split; [by right|]. split; [|done].
    intros H. by specialize (Hs H).
Qed.

(** The lookup of the callee throws: nothing else happens. *)
Lemma lookup_fails m st0 e :
  resolve (heap st0) (_client (this st0)) (method_name m) = Throw e →
  e = "TypeError" ∧ ¬ served st0 m.
Proof.
  intros E. split; [by eapply resolve_throws|].
  unfold served, has_method. rewrite E. intros H%bool_decide_eq_true. done.
Qed.

(** Each method takes one step on the interaction and one on the heap,
    and either returns the client's promise for the one call it has made,
    or throws TypeError without a call. It succeeds when the client has
    its function and the options let [type] be written, and throws when
    nothing can be called on the client. *)
Lemma invoke_effect m st :
  ∃ r st',
    invoke m st = (r, st')
    ∧ this_step m (this st) (this st')
    ∧ heap_step m (heap st) (heap st')
    ∧ (r = Normal (Promise (length (calls st)))
         ∧ (∃ c, calls st' = calls st ++ [c] ∧ (served st m → sent_by st m c))
       ∨ r = Throw "TypeError" ∧ calls st' = calls st)
    ∧ (served st m → accepts st (written_by m) → ∃ p, r = Normal p)
    ∧ (unserved st (method_name m) → r = Throw "TypeError").
Proof.
  assert (∀ ps,
    (∀ k, is_Some (ps !! k) → k = "type" ∨ k = "flags") →
    (∃ op, m = Initial op) →
    ∃ r st',
      match resolve (heap st) (_client (this st)) "createInteractionResponse" with
      | Normal k =>
          apply_callee k (_client (this st))
            [id (this st); read (token (this st)); VObject (fresh (dom (heap st)))]
            {| this := this st; heap := <[fresh (dom (heap st)) := literal ps]> (heap st);
               calls := calls st |}
      | Throw e => (Throw e, st)
      end = (r, st')
      ∧ this_step m (this st) (this st')
      ∧ heap_step m (heap st) (heap st')
      ∧ (r = Normal (Promise (length (calls st)))
           ∧ (∃ c, calls st' = calls st ++ [c] ∧ (served st m → sent_by st m c))
         ∨ r = Throw "TypeError" ∧ calls st' = calls st)
      ∧ (served st m → accepts st (written_by m) → ∃ p, r = Normal p)
      ∧ (unserved st (method_name m) → r = Throw "TypeError")) as Hliteral.
  { intros ps Hps [op ->].
    destruct (resolve (heap st) (_client (this st)) "createInteractionResponse")
      as [k|e] eqn:E.
    - destruct (send_effect (Initial op) st
                  {| this := this st; heap := <[fresh (dom (heap st)) := literal ps]> (heap st);
                     calls := calls st |} k
                  [id (this st); read (token (this st)); VObject (fresh (dom (heap st)))]
                  E eq_refl) as (r & st' & Ea & Ht & Hh & Hr & Hs & Hu).
      simpl in *. exists r, st'. split; [done|]. rewrite Ht, Hh.
      split; [constructor|]. split; [by apply heap_alloc|].
      split; [|split; [by eauto|done]].
      destruct Hr as [(-> & c & Hc & Hsent)|[-> Hc]]; [left|by right].
      split; [done|]. exists c. split; [done|]. intros Hserved.
      rewrite (Hsent Hserved). simpl. unfold response. eauto.
    - destruct (lookup_fails (Initial op) st e E) as [-> Hns].
      exists (Throw "TypeError"), st. split; [done|].
      split; [constructor|]. split; [constructor|]. split; [by right|].
      split; [done|done]. }
  assert (∀ ty options,
    m = Initial (CreateMessage options) ∨ m = Initial (EditParent options) →
    ∃ r st',
      match stamp ty options st with
      | (Normal options', st1) =>
          match resolve (heap st1) (_client (this st1)) "createInteractionResponse" with
          | Normal k =>
              apply_callee k (_client (this st1))
                [id (this st1); read (token (this st1)); options'] st1
          | Throw e => (Throw e, st1)
          end
      | (Throw e, st1) => (Throw e, st1)
      end = (r, st')
      ∧ this_step m (this st) (this st')
      ∧ heap_step m (heap st) (heap st')
      ∧ (r = Normal (Promise (length (calls st)))
           ∧ (∃ c, calls st' = calls st ++ [c] ∧ (served st m → sent_by st m c))
         ∨ r = Throw "TypeError" ∧ calls st' = calls st)
      ∧ (served st m → accepts st (written_by m) → ∃ p, r = Normal p)
      ∧ (unserved st (method_name m) → r = Throw "TypeError")) as Hstamped.
  { intros ty options Hm.
    assert (method_name m = "createInteractionResponse") as Hname
      by (by destruct Hm as [-> | ->]).
    assert (written_by m = options) as Hw by (by destruct Hm as [-> | ->]).
    destruct (stamp_effect ty m options st Hm)
      as (r1 & st1 & Es & Hc & Hthis & Hheap & Hr & Hacc).
    rewrite Es. rewrite Hw. destruct Hr as [[v ->]|[-> ->]].
    - rewrite (stamp_keeps_lookup _ _ _ _ _ _ Es) by done.
      destruct (resolve (heap st) (_client (this st)) "createInteractionResponse")
        as [k|e] eqn:E; rewrite <- Hname in E.
      + destruct (send_effect m st st1 k [id (this st1); read (token (this st1)); v] E Hc)
          as (r & st' & Ea & Ht & Hh & Hr & Hs & Hu).
        exists r, st'. split; [done|]. rewrite Ht, Hh.
        split; [done|]. split; [done|]. split; [|split; [by eauto|done]].
        destruct Hr as [(-> & c & Hcalls & Hsent)|[-> Hcalls]]; [left|by right].
        split; [done|]. exists c. split; [done|]. intros Hserved.
        rewrite (Hsent Hserved).
        destruct (this_step_fields _ _ _ Hthis) as (Hid & Htok & _).
        rewrite Hid, Htok. destruct Hm as [-> | ->]; simpl; unfold response; eauto.
      + destruct (lookup_fails m st e E) as [-> Hns].
        exists (Throw "TypeError"), st1. split; [done|].
        split; [done|]. split; [done|]. split; [by right|]. split; [done|done].
    - exists (Throw "TypeError"), st. split; [done|].
      split; [constructor|]. split; [constructor|]. split; [by right|].
      split; [|done]. intros _ Ha. by destruct (Hacc Ha). }
  destruct m as [[|flags| |options|options]|f].
  - simpl. rewrite acknowledge_eq. apply Hliteral; [apply keys_of_acknowledge|eauto].
  - simpl. rewrite defer_eq. apply Hliteral; [apply keys_of_defer|eauto].
  - simpl. rewrite deferUpdate_eq, acknowledge_eq.
    apply Hliteral; [apply keys_of_acknowledge|eauto].
  - simpl. unfold createMessage. rewrite stamped_eq. apply Hstamped. by left.
  - simpl. unfold editParent. rewrite stamped_eq. apply Hstamped. by right.
  - simpl invoke. rewrite run_later_eq.
    destruct (resolve (heap st) (_client (this st)) (method_name (Later f)))
      as [k|e] eqn:E.
    + match goal with |- context [apply_callee k _ ?args st] =>
        destruct (send_effect (Later f) st st k args E eq_refl)
          as (r & st' & Ea & Ht & Hh & Hr & Hs & Hu) end.
      exists r, st'. split; [done|]. rewrite Ht, Hh.
      split; [constructor|]. split; [constructor|]. split; [|split; [by eauto|done]].
      destruct Hr as [(-> & c & Hcalls & Hsent)|[-> Hcalls]]; [left|by right].
      split; [done|]. exists c. split; [done|]. intros Hserved.
      rewrite (Hsent Hserved). by destruct f.
    + destruct (lookup_fails (Later f) st e E) as [-> Hns].
      exists (Throw "TypeError"), st. split; [done|].
      split; [constructor|]. split; [constructor|]. split; [by right|]. split; [done|done].
Qed.

(** What a step keeps: the client's functions, and the options that can be
    written to. *)
Lemma step_lookup m st st' name :
  this_step m (this st) (this st') → heap_step m (heap st) (heap st') →
  name ≠ "type" → name ≠ "flags" →
  resolve (heap st') (_client (this st')) name
  = resolve (heap st) (_client (this st)) name.
Proof.
  intros Hthis Hheap Hk1 Hk2.
  destruct (this_step_fields _ _ _ Hthis) as (_ & _ & _ & -> & _).
  by eapply heap_step_resolve.
Qed.

Lemma step_accepts m st st' v :
  this_step m (this st) (this st') → heap_step m (heap st) (heap st') →
  accepts st v → accepts st' v.
Proof.
  intros Hthis Hheap. destruct v as [| | | | | |l| |]; simpl; try done.
  - intros (o & Ho & Hw). by eapply heap_step_writable.
  - destruct (this_step_fields _ _ _ Hthis) as (_ & _ & _ & _ & -> & _). done.
Qed.

Lemma step_response m st st' body :
  this_step m (this st) (this st') → response st' body = response st body.
Proof.
  intros Hthis. destruct (this_step_fields _ _ _ Hthis) as (Hi & Ht & _).
  unfold response. by rewrite Hi, Ht.
Qed.

(** An initial response of any kind, sent when the client has
    [createInteractionResponse] and the options can be written to, is
    handed to the client; the next one finds the same conditions. *)
Lemma run_responds op st :
  responds st →
  accepts st (options_of op) →
  ∃ body st',
    run op st = (Normal (Promise (length (calls st))), st')
    ∧ calls st' = calls st ++ [response st body]
    ∧ responds st'
    ∧ (∀ v, accepts st v → accepts st' v)
    ∧ (∀ body', response st' body' = response st body').
Proof.
  intros H Ha.
  destruct (invoke_effect (Initial op) st)
    as (r & st' & E & Hthis & Hheap & Hr & Hs & _).
  destruct (Hs H Ha) as [p ->].
  destruct Hr as [(Hp & c & Hc & Hsent)|[? _]]; [|done]. simplify_eq.
  destruct (Hsent H) as [body ->].
  exists body, st'. split; [exact E|]. split; [done|]. split.
  { unfold responds, has_method in *.
    by rewrite (step_lookup _ _ _ _ Hthis Hheap). }
  split; [intros v; by apply (step_accepts (Initial op))|].
  intros body'. by apply (step_response (Initial op)).
Qed.

(** ** One initial response per interaction *)

(** C1, as it fails: on a fresh Message Component interaction
    [createMessage(options)] succeeds, and the [defer()] that follows is
    not refused with AlreadyResponded: it returns the client's promise and
    the client has received a second [createInteractionResponse]. *)
Lemma second_response_reaches_client :
  let first := createMessage (VObject 3) Sample.message_component in
  let second := defer VUndefined first.2 in
  first.1 = Normal (Promise 0)
  ∧ second.1 = Normal (Promise 1)
  ∧ second.1 ≠ Throw "AlreadyResponded"
  ∧ calls second.2 =
      [createInteractionResponse (VString "1001") (VString "tok") (VObject 3);
       createInteractionResponse (VString "1001") (VString "tok") (VObject 5)].
Proof. vm_compute. repeat split; congruence. Qed.

(** C1, amended: the class keeps no record of responses already sent. When
    the client has [createInteractionResponse] and the options given, if
    any, let their [type] be written (an object with a writable [type], or
    extensible and without one; any value that is not an object), an
    initial-response operation of any kind that follows a successful one
    is handed to the client like the first: both return the client's
    promise and the trace grows by the two [createInteractionResponse]
    calls, under the interaction's id and token. *)
Theorem initial_responses_all_dispatched op1 op2 st :
  responds st →
  accepts st (options_of op1) →
  accepts st (options_of op2) →
  ∃ body1 body2 st1 st2,
    run op1 st = (Normal (Promise (length (calls st))), st1)
    ∧ run op2 st1 = (Normal (Promise (S (length (calls st)))), st2)
    ∧ calls st2 = calls st ++ [response st body1; response st body2].
Proof.
  intros H Ha1 Ha2.
  destruct (run_responds op1 st H Ha1) as (body1 & st1 & E1 & C1 & H1 & A1 & R1).
  destruct (run_responds op2 st1 H1 (A1 _ Ha2)) as (body2 & st2 & E2 & C2 & _).
  exists body1, body2, st1, st2. split; [exact E1|].
  rewrite E2, C2, C1, R1, length_app. simpl. rewrite Nat.add_1_r.
  split; [done|]. by rewrite <- app_assoc.
Qed.

Lemma initial_responses_all_dispatched_witness :
  responds Sample.message_component
  ∧ accepts Sample.message_component (VObject 3)
  ∧ ∃ body1 body2 st1 st2,
      run (CreateMessage (VObject 3)) Sample.message_component = (Normal (Promise 0), st1)
      ∧ run (Defer VUndefined) st1 = (Normal (Promise 1), st2)
      ∧ calls st2 = [response Sample.message_component body1;
                     response Sample.message_component body2].
Proof.
  assert (accepts Sample.message_component (VObject 3)) as Ha.
  { eexists. split; reflexivity. }
  split; [reflexivity|]. split; [exact Ha|].
  exact (initial_responses_all_dispatched (CreateMessage (VObject 3)) (Defer VUndefined)
           Sample.message_component eq_refl Ha I).
Defined.

(** ** Operations documented as Message Component only *)

(** C2, as it fails: on a Slash Command interaction (type 2)
    [acknowledge()] is not refused with InvalidForVariant; the request
    reaches the client. *)
Lemma acknowledge_slash_command_dispatches :
  let result := acknowledge Sample.slash_command in
  type (this Sample.slash_command) = VNumber 2
  ∧ result.1 = Normal (Promise 0)
  ∧ result.1 ≠ Throw "InvalidForVariant"
  ∧ calls result.2 =
      [createInteractionResponse (VString "1001") (VString "tok") (VObject 5)].
Proof. vm_compute. repeat split; congruence. Qed.

(** C2, amended: no method looks at the interaction's type. For every
    interaction whose client has [createInteractionResponse], of type 1, 2,
    3 or any other, [acknowledge()] and [deferUpdate()] succeed, and so
    does [editParent(options)] when the options let their [type] be
    written: each hands one [createInteractionResponse] to the client and
    returns its promise. *)
Theorem component_methods_ignore_type op st :
  responds st →
  op = Acknowledge ∨ op = DeferUpdate ∨ (∃ options, op = EditParent options) →
  accepts st (options_of op) →
  ∃ body st',
    run op st = (Normal (Promise (length (calls st))), st')
    ∧ calls st' = calls st ++ [response st body].
Proof.
  intros H _ Ha.
  destruct (run_responds op st H Ha) as (body & st' & E & C & _).
  by exists body, st'.
Qed.

Lemma component_methods_ignore_type_witness :
  responds Sample.ping
  ∧ accepts Sample.ping (VObject 3)
  ∧ type (this Sample.ping) = VNumber 1
  ∧ ∃ body st',
      run (EditParent (VObject 3)) Sample.ping = (Normal (Promise 0), st')
      ∧ calls st' = [response Sample.ping body].
Proof.
  assert (accepts Sample.ping (VObject 3)) as Ha.
  { eexists. split; reflexivity. }
  split; [reflexivity|]. split; [exact Ha|]. split; [reflexivity|].
  apply (component_methods_ignore_type (EditParent (VObject 3)) Sample.ping eq_refl);
    [|exact Ha].
  right; right. by eexists.
Defined.

(** ** Construction *)

(** C3, as it fails: a payload whose type discriminator is 99 is accepted;
    the constructor returns an interaction of type 99 and throws nothing. *)
Lemma unknown_type_is_accepted :
  get (Sample.store 99) (VObject 2) "type" = Normal (VNumber 99)
  ∧ constructor (Sample.store 99) (VObject 2) (VObject 1) = Normal (Sample.record 99)
  ∧ constructor (Sample.store 99) (VObject 2) (VObject 1) ≠ Throw "MalformedPayload".
Proof. vm_compute. repeat split; congruence. Qed.

(** C3, amended: the constructor does not validate the type discriminator.
    For every payload object, whatever its [type] field holds (also a value
    other than 1, 2 and 3, or none at all), construction succeeds and the
    interaction's [type] is the payload's [type], stored as it is. *)
Theorem constructor_stores_type_unchecked h l o client :
  h !! l = Some o →
  ∃ r, constructor h (VObject l) client = Normal r
       ∧ type r = default VUndefined (props o !! "type")
       ∧ id r = default VUndefined (props o !! "id")
       ∧ _client r = client.
Proof.
  intros H. unfold constructor, get. rewrite H.
  eexists. split; [reflexivity|]. by repeat split.
Qed.

Lemma constructor_stores_type_unchecked_witness :
  Sample.store 99 !! 2%positive = Some (Sample.payload 99)
  ∧ ∃ r, constructor (Sample.store 99) (VObject 2) (VObject 1) = Normal r
         ∧ type r = default VUndefined (props (Sample.payload 99) !! "type")
         ∧ id r = default VUndefined (props (Sample.payload 99) !! "id")
         ∧ _client r = VObject 1.
Proof.
  split; [reflexivity|].
  apply (constructor_stores_type_unchecked (Sample.store 99) 2%positive
           (Sample.payload 99) (VObject 1)).
  reflexivity.
Defined.

(** ** createMessage and editParent on an options object *)

Lemma stamped_object ty l o st :
  heap st !! l = Some o →
  (options' ← stamp ty (VObject l);
   self ← get_this;
   send ← method_call (_client self) "createInteractionResponse";
   send (_client self) [id self; read (token self); options']) st =
  match assign "type" ty o with
  | Some o' =>
      match resolve (heap st) (_client (this st)) "createInteractionResponse" with
      | Normal k =>
          apply_callee k (_client (this st))
            [id (this st); read (token (this st)); VObject l]
            {| this := this st; heap := <[l := o']> (heap st); calls := calls st |}
      | Throw e =>
          (Throw e, {| this := this st; heap := <[l := o']> (heap st); calls := calls st |})
      end
  | None => (Throw "TypeError", st)
  end.
Proof.
  intros Ho. rewrite stamped_eq.
  pose proof (stamp_object ty l st) as Es. rewrite Ho in Es.
  destruct (assign "type" ty o) as [o'|] eqn:Ha; rewrite Es; [|done].
  by rewrite (stamp_keeps_lookup _ _ _ _ _ _ Es).
Qed.

Lemma stamped_writable ty l o st :
  responds st →
  heap st !! l = Some o →
  writable "type" o = true →
  (options' ← stamp ty (VObject l);
   self ← get_this;
   send ← method_call (_client self) "createInteractionResponse";
   send (_client self) [id self; read (token self); options']) st =
  (Normal (Promise (length (calls st))),
   {| this := this st; heap := <[l := set_own "type" ty o]> (heap st);
      calls := calls st ++ [response st (VObject l)] |}).
Proof.
  intros H%has_method_resolve Ho Hw.
  by rewrite (stamped_object _ _ _ _ Ho), assign_writable, H.
Qed.

(** C4, as it fails: on a fresh Ping interaction with a REST client,
    [createMessage] given [Object.freeze({content: "hi"})] throws TypeError
    and hands nothing to the client; given an object whose [type] is an
    accessor, it hands that object over, and its [type] still reads 9. *)
Lemma createMessage_cannot_always_stamp :
  let refused := createMessage (VObject 5) guarded in
  let passed := createMessage (VObject 6) guarded in
  ready guarded
  ∧ heap guarded !! 5%positive = Some (frozen_literal {[ "content" := VString "hi" ]})
  ∧ refused = (Throw "TypeError", guarded)
  ∧ passed.1 = Normal (Promise 0)
  ∧ calls passed.2
    = [createInteractionResponse (VString "1001") (VString "tok") (VObject 6)]
  ∧ field passed.2 (VObject 6) "type" = Normal (VNumber 9)
  ∧ field passed.2 (VObject 6) "type" ≠ Normal (VNumber 4).
Proof. vm_compute. repeat split; congruence. Qed.

(** C4, amended: for every options object whose [type] is an ordinary
    writable property, or which is extensible and has none (every object
    literal), whatever it holds under [type], [createMessage(options)]
    hands the client a request whose [type] is 4 (message with source) and
    whose other fields are the caller's; when the assignment of [type] is
    refused (a frozen or non-extensible object, a read-only [type]),
    [createMessage] throws TypeError and nothing is sent or changed. *)
Theorem createMessage_forces_type l o st :
  heap st !! l = Some o →
  let result := createMessage (VObject l) st in
  (responds st →
   writable "type" o = true →
   result.1 = Normal (Promise (length (calls st)))
   ∧ calls result.2 = calls st ++ [response st (VObject l)]
   ∧ field result.2 (VObject l) "type" = Normal (VNumber 4)
   ∧ ∀ k, k ≠ "type" → field result.2 (VObject l) k = field st (VObject l) k)
  ∧ (assign "type" (VNumber 4) o = None → result = (Throw "TypeError", st)).
Proof.
  intros Hl. simpl. split.
  - intros H Hw. unfold createMessage. rewrite (stamped_writable _ _ _ _ H Hl Hw).
    unfold field, get. simpl. rewrite lookup_insert_eq, Hl. simpl.
    split; [done|]. split; [done|]. split.
    + by rewrite lookup_insert_eq.
    + intros k Hk. by rewrite lookup_insert_ne.
  - intros Ha. unfold createMessage. rewrite (stamped_object _ _ _ _ Hl).
    unfold Constants.InteractionResponseType.CHANNEL_MESSAGE_WITH_SOURCE.
    by rewrite Ha.
Qed.

(** [createMessage({content: "hi"})] on a fresh Ping interaction. *)
Lemma createMessage_forces_type_witness :
  let result := createMessage (VObject 3) Sample.ping in
  responds Sample.ping
  ∧ heap Sample.ping !! 3%positive = Some (literal {[ "content" := VString "hi" ]})
  ∧ result.1 = Normal (Promise 0)
  ∧ calls result.2 =
      [createInteractionResponse (VString "1001") (VString "tok") (VObject 3)]
  ∧ field result.2 (VObject 3) "type" = Normal (VNumber 4)
  ∧ field result.2 (VObject 3) "content" = Normal (VString "hi").
Proof.
  intros result.
  destruct (createMessage_forces_type 3%positive
              (literal {[ "content" := VString "hi" ]}) Sample.ping eq_refl) as [H _].
  destruct (H eq_refl eq_refl) as (E1 & E2 & E3 & E4).
  split; [reflexivity|]. split; [reflexivity|].
  split; [exact E1|]. split; [exact E2|]. split; [exact E3|].
  exact (E4 "content" ltac:(discriminate)).
Defined.

(** C5, as it fails: after [createMessage(options)] the caller's own
    [{content: "hi"}] holds [type: 4], and the request handed to the client
    is that same object; [editParent] stamps 7 in the same way. *)
Lemma caller_options_are_mutated :
  let before := Sample.message_component in
  let after := (createMessage (VObject 3) before).2 in
  let after' := (editParent (VObject 3) before).2 in
  heap before !! 3%positive = Some (literal {[ "content" := VString "hi" ]})
  ∧ heap after !! 3%positive
    = Some (literal {[ "content" := VString "hi"; "type" := VNumber 4 ]})
  ∧ heap after' !! 3%positive
    = Some (literal {[ "content" := VString "hi"; "type" := VNumber 7 ]})
  ∧ heap after !! 3%positive ≠ heap before !! 3%positive
  ∧ calls after =
      [createInteractionResponse (VString "1001") (VString "tok") (VObject 3)].
Proof. vm_compute. repeat split; congruence. Qed.

(** C5, amended: [createMessage] and [editParent] build no request object
    when they are given one: if its [type] is an ordinary writable
    property, or it is extensible and has none, they write the response
    type (4, respectively 7) into the caller's object in place and hand
    that same object to the client. The caller's other fields and every
    other object of the heap are left as they were. *)
Theorem options_stamped_in_place l o st :
  responds st →
  heap st !! l = Some o →
  writable "type" o = true →
  createMessage (VObject l) st =
    (Normal (Promise (length (calls st))),
     {| this := this st;
        heap := <[l := {| props := <["type" := VNumber 4]> (props o);
                          attrs := attrs o; extensible := extensible o |}]> (heap st);
        calls := calls st ++ [response st (VObject l)] |})
  ∧ editParent (VObject l) st =
    (Normal (Promise (length (calls st))),
     {| this := this st;
        heap := <[l := {| props := <["type" := VNumber 7]> (props o);
                          attrs := attrs o; extensible := extensible o |}]> (heap st);
        calls := calls st ++ [response st (VObject l)] |}).
Proof.
  intros H Hl Hw. unfold createMessage, editParent.
  by rewrite !(stamped_writable _ _ _ _ H Hl Hw).
Qed.

Lemma options_stamped_in_place_witness :
  responds Sample.message_component
  ∧ heap Sample.message_component !! 3%positive
    = Some (literal {[ "content" := VString "hi" ]})
  ∧ writable "type" (literal {[ "content" := VString "hi" ]}) = true
  ∧ createMessage (VObject 3) Sample.message_component =
    (Normal (Promise 0),
     {| this := Sample.record 3;
        heap := <[3%positive := literal {[ "content" := VString "hi"; "type" := VNumber 4 ]}]>
                  (Sample.store 3);
        calls := [createInteractionResponse (VString "1001") (VString "tok") (VObject 3)] |}).
Proof.
  split; [reflexivity|]. split; [reflexivity|]. split; [reflexivity|].
  destruct (options_stamped_in_place 3%positive
              (literal {[ "content" := VString "hi" ]}) Sample.message_component
              eq_refl eq_refl eq_refl) as [E _].
  rewrite E. vm_compute. reflexivity.
Defined.

(** ** Deferred responses *)

(** C6: [defer(64)] hands the client a new object [{type: 5, flags: 64}],
    and [defer()], whose parameter is then [undefined], a new object
    [{type: 5, flags: 0}]. *)
Theorem defer_sends_type_and_flags st :
  ready st →
  let l := fresh (dom (heap st)) in
  defer (VNumber 64) st =
    (Normal (Promise (length (calls st))),
     {| this := this st;
        heap := <[l := literal {[ "type" := VNumber 5; "flags" := VNumber 64 ]}]> (heap st);
        calls := calls st ++ [response st (VObject l)] |})
  ∧ defer VUndefined st =
    (Normal (Promise (length (calls st))),
     {| this := this st;
        heap := <[l := literal {[ "type" := VNumber 5; "flags" := VNumber 0 ]}]> (heap st);
        calls := calls st ++ [response st (VObject l)] |}).
Proof. intros H%ready_responds l. by rewrite !defer_ready. Qed.

Lemma defer_sends_type_and_flags_witness :
  ready Sample.slash_command
  ∧ field (defer (VNumber 64) Sample.slash_command).2 (VObject 5) "flags"
    = Normal (VNumber 64)
  ∧ field (defer VUndefined Sample.slash_command).2 (VObject 5) "flags"
    = Normal (VNumber 0)
  ∧ calls (defer VUndefined Sample.slash_command).2
    = [createInteractionResponse (VString "1001") (VString "tok") (VObject 5)].
Proof.
  split; [reflexivity|].
  destruct (defer_sends_type_and_flags Sample.slash_command eq_refl) as [E1 E2].
  rewrite E1, E2. vm_compute. by repeat split.
Defined.

(** C7: [deferUpdate()] and [acknowledge()] are the same computation: in
    every state they return the same completion and leave the same state.
    With a REST client, the request they send is a new object [{type: 6}],
    under the interaction's id and token. *)
Theorem deferUpdate_is_acknowledge st :
  deferUpdate st = acknowledge st
  ∧ (ready st →
     let l := fresh (dom (heap st)) in
     acknowledge st =
       (Normal (Promise (length (calls st))),
        {| this := this st;
           heap := <[l := literal {[ "type" := VNumber 6 ]}]> (heap st);
           calls := calls st ++
             [createInteractionResponse (id (this st)) (read (token (this st)))
                (VObject l)] |})).
Proof.
  split; [reflexivity|]. intros H%ready_responds l. by rewrite acknowledge_ready.
Qed.

Lemma deferUpdate_is_acknowledge_witness :
  ready Sample.message_component
  ∧ deferUpdate Sample.message_component = acknowledge Sample.message_component
  ∧ calls (acknowledge Sample.message_component).2
    = [createInteractionResponse (VString "1001") (VString "tok") (VObject 5)]
  ∧ field (deferUpdate Sample.message_component).2 (VObject 5) "type"
    = Normal (VNumber 6).
Proof.
  split; [reflexivity|].
  destruct (deferUpdate_is_acknowledge Sample.message_component) as [E1 E2].
  split; [exact E1|]. rewrite E1, (E2 eq_refl). vm_compute. by split.
Defined.

(** ** Follow-ups and edits *)

Lemma run_all_cons (m : M promise) ms st :
  run_all (m :: ms) st =
  let '(r, st1) := m st in
  let '(rs, st2) := run_all ms st1 in
  (r :: rs, st2).
Proof. reflexivity. Qed.

Lemma run_later_served f st :
  served st (Later f) →
  run_later f st =
  (Normal (Promise (length (calls st))),
   {| this := this st; heap := heap st; calls := calls st ++ [later_call st f] |}).
Proof. intros H%has_method_resolve. rewrite run_later_eq, H. by destruct f. Qed.

Lemma run_later_unserved f st :
  unserved st (method_name (Later f)) → run_later f st = (Throw "TypeError", st).
Proof.
  unfold unserved. rewrite run_later_eq.
  destruct (resolve _ _ _) as [[e|e|]|e] eqn:E; try done.
  by rewrite (resolve_throws _ _ _ _ E).
Qed.

(** A follow-up, edit or delete changes nothing but the trace, and throws
    nothing but TypeError. *)
Lemma run_later_frame f st :
  this (run_later f st).2 = this st
  ∧ heap (run_later f st).2 = heap st
  ∧ ((run_later f st).1 = Throw "TypeError" ∨ ∃ p, (run_later f st).1 = Normal p).
Proof.
  rewrite run_later_eq.
  destruct (resolve _ _ _) as [[e|e|]|e] eqn:E; simpl; eauto.
  rewrite (resolve_throws _ _ _ _ E). eauto.
Qed.

Lemma run_all_later_frame fs : ∀ st,
  this (run_all (run_later <$> fs) st).2 = this st
  ∧ heap (run_all (run_later <$> fs) st).2 = heap st
  ∧ length (run_all (run_later <$> fs) st).1 = length fs
  ∧ Forall (λ r, r = Throw "TypeError" ∨ ∃ p, r = Normal p)
      (run_all (run_later <$> fs) st).1.
Proof.
  induction fs as [|f fs IH]; intros st; [by repeat split|].
  rewrite fmap_cons, run_all_cons.
  destruct (run_later_frame f st) as (Ht & Hh & Hr).
  destruct (run_later f st) as [r st1]. specialize (IH st1).
  destruct (run_all (run_later <$> fs) st1) as [rs st2]. simpl in *.
  destruct IH as (IHt & IHh & IHl & IHr).
  split; [congruence|]. split; [congruence|]. split; [by rewrite IHl|].
  by constructor.
Qed.

Lemma run_all_later_served fs : ∀ st,
  Forall (λ f, served st (Later f)) fs →
  run_all (run_later <$> fs) st =
  ((λ n, Normal (Promise n)) <$> seq (length (calls st)) (length fs),
   {| this := this st; heap := heap st; calls := calls st ++ (later_call st <$> fs) |}).
Proof.
  induction fs as [|f fs IH]; intros st Hs.
  - simpl. rewrite app_nil_r. by destruct st.
  - apply Forall_cons in Hs as [Hf Hs].
    rewrite fmap_cons, run_all_cons, (run_later_served _ _ Hf).
    rewrite IH by exact Hs. simpl.
    rewrite length_app, Nat.add_1_r. simpl. by rewrite <- app_assoc.
Qed.

Lemma run_all_later_unserved fs : ∀ st,
  Forall (λ f, unserved st (method_name (Later f))) fs →
  run_all (run_later <$> fs) st = (replicate (length fs) (Throw "TypeError"), st).
Proof.
  induction fs as [|f fs IH]; intros st Hs; [done|].
  apply Forall_cons in Hs as [Hf Hs].
  rewrite fmap_cons, run_all_cons, (run_later_unserved _ _ Hf).
  by rewrite (IH _ Hs).
Qed.

Lemma followups_as_later (options : list value) :
  createFollowup <$> options = run_later <$> (CreateFollowup <$> options).
Proof. by rewrite <- list_fmap_compose. Qed.

(** C8: the class has no response state beside the interaction's fields.
    However many times [createFollowup] is called, and whether or not an
    initial response was sent before, the interaction and the heap are left
    as they were and no call throws AlreadyResponded; with a REST client
    every call returns the client's promise and the trace grows by one
    [executeWebhook] per call. *)
Theorem followups_leave_state_alone options st :
  let result := run_all (createFollowup <$> options) st in
  this result.2 = this st
  ∧ heap result.2 = heap st
  ∧ length result.1 = length options
  ∧ Forall (λ r, r ≠ Throw "AlreadyResponded") result.1
  ∧ (ready st →
     Forall (λ r, ∃ p, r = Normal p) result.1
     ∧ calls result.2 = calls st ++
         (executeWebhook (applicationId (this st)) (read (token (this st))) <$> options)).
Proof.
  simpl. rewrite followups_as_later.
  destruct (run_all_later_frame (CreateFollowup <$> options) st) as (Ht & Hh & Hl & Hr).
  split; [done|]. split; [done|]. split; [by rewrite Hl, length_fmap|]. split.
  - eapply Forall_impl; [exact Hr|]. intros r [->|[p ->]]; congruence.
  - intros H. rewrite run_all_later_served.
    + simpl. split.
      * apply Forall_fmap, Forall_true. intros n. simpl. eauto.
      * by rewrite <- list_fmap_compose.
    + apply Forall_fmap, Forall_true. intros o. by apply ready_serves.
Qed.

Lemma followups_leave_state_alone_witness :
  let options := [VObject 3; VUndefined; VObject 4] in
  let result := run_all (createFollowup <$> options) Sample.slash_command in
  ready Sample.slash_command
  ∧ calls Sample.slash_command = []
  ∧ result.2 = {| this := Sample.record 2; heap := Sample.store 2;
                  calls := executeWebhook (VString "app") (VString "tok") <$> options |}
  ∧ Forall (λ r, ∃ p, r = Normal p) result.1.
Proof.
  intros options result.
  destruct (followups_leave_state_alone options Sample.slash_command)
    as (E1 & E2 & _ & _ & E5).
  destruct (E5 eq_refl) as [E6 E7].
  split; [reflexivity|]. split; [reflexivity|]. split; [|exact E6].
  fold result in E1, E2, E7. destruct result.2 as [t h c]. simpl in *.
  by rewrite E1, E2, E7.
Defined.

Lemma read_assigned v : read (assign_if_defined (λ x, x) v) = v.
Proof. by destruct v. Qed.

(** C9: on an interaction just constructed from a payload object,
    [edit(messageId, options)] hands the client [editWebhookMessage] with
    the payload's [application_id] and [token], the message id and the
    options as given; the heap, and with it the options object, is
    unchanged. In particular for [edit("@original", {content: "x"})]. *)
Theorem edit_forwards_arguments h d o client messageId options :
  h !! d = Some o →
  has_client h client = true →
  ∃ r,
    constructor h (VObject d) client = Normal r
    ∧ edit messageId options {| this := r; heap := h; calls := [] |} =
      (Normal (Promise 0),
       {| this := r; heap := h;
          calls := [editWebhookMessage
                      (default VUndefined (props o !! "application_id"))
                      (default VUndefined (props o !! "token"))
                      messageId options] |}).
Proof.
  intros Hd Hc. unfold constructor, get. rewrite Hd. simpl.
  eexists. split; [reflexivity|].
  match goal with |- edit _ _ ?s = _ =>
    pose proof (run_later_served (Edit messageId options) s
                  (ready_serves s _ Hc)) as E end.
  simpl in E. rewrite E. by rewrite read_assigned.
Qed.

Lemma edit_forwards_arguments_witness :
  Sample.store 3 !! 2%positive = Some (Sample.payload 3)
  ∧ has_client (Sample.store 3) (VObject 1) = true
  ∧ Sample.store 3 !! 4%positive = Some (literal {[ "content" := VString "x" ]})
  ∧ ∃ r,
      constructor (Sample.store 3) (VObject 2) (VObject 1) = Normal r
      ∧ edit (VString "@original") (VObject 4)
          {| this := r; heap := Sample.store 3; calls := [] |} =
        (Normal (Promise 0),
         {| this := r; heap := Sample.store 3;
            calls := [editWebhookMessage (VString "app") (VString "tok")
                        (VString "@original") (VObject 4)] |}).
Proof.
  split; [reflexivity|]. split; [reflexivity|]. split; [reflexivity|].
  apply (edit_forwards_arguments (Sample.store 3) 2%positive (Sample.payload 3)
           (VObject 1) (VString "@original") (VObject 4)); reflexivity.
Defined.

(** ** createMessage and editParent on other arguments *)

(** C10: with [undefined], [createMessage] and [editParent] hand
    [undefined] to the client and touch no object; with a defined value
    that is not an object (a string, a number, a boolean, [null]) they hand
    over a new object holding the response type only, [{type: 4}]
    respectively [{type: 7}], and the caller's value is dropped. *)
Theorem non_object_options v st :
  ready st →
  replaced v →
  let l := fresh (dom (heap st)) in
  let sent body h :=
    (Normal (Promise (length (calls st))),
     {| this := this st; heap := h; calls := calls st ++ [response st body] |}) in
  createMessage VUndefined st = sent VUndefined (heap st)
  ∧ editParent VUndefined st = sent VUndefined (heap st)
  ∧ createMessage v st
    = sent (VObject l) (<[l := literal {[ "type" := VNumber 4 ]}]> (heap st))
  ∧ editParent v st
    = sent (VObject l) (<[l := literal {[ "type" := VNumber 7 ]}]> (heap st))
  ∧ heap st !! l = None.
Proof.
  intros H%ready_responds Hv l sent. subst sent. simpl.
  rewrite createMessage_undefined, editParent_undefined by done.
  rewrite createMessage_replaced, editParent_replaced by done.
  repeat split. apply fresh_unused.
Qed.

Lemma non_object_options_witness :
  let st := Sample.ping in
  ready st
  ∧ replaced (VString "hi")
  ∧ createMessage VUndefined st
    = (Normal (Promise 0),
       {| this := this st; heap := heap st;
          calls := [createInteractionResponse (VString "1001") (VString "tok") VUndefined] |})
  ∧ createMessage (VString "hi") st
    = (Normal (Promise 0),
       {| this := this st;
          heap := <[5%positive := literal {[ "type" := VNumber 4 ]}]> (heap st);
          calls := [createInteractionResponse (VString "1001") (VString "tok") (VObject 5)] |}).
Proof.
  intros st.
  assert (replaced (VString "hi")) as Hv.
  { split; [discriminate | left; discriminate]. }
  destruct (non_object_options (VString "hi") st eq_refl Hv) as (E1 & _ & E3 & _).
  split; [reflexivity|]. split; [exact Hv|].
  split; [exact E1|exact E3].
Defined.

(** * Further properties of the class *)

(** ** Any sequence of methods *)

Lemma this_step_unwritten m r r' :
  this_step m r r' → written_by m ≠ VInteraction → r' = r.
Proof. by destruct 1. Qed.

Lemma silent_unserved st m : silent st → unserved st (method_name m).
Proof. intros (H1 & H2 & H3 & H4). by destruct m as [op|[| |]]. Qed.

Lemma step_silent m st st' :
  this_step m (this st) (this st') → heap_step m (heap st) (heap st') →
  silent st → silent st'.
Proof.
  intros Hthis Hheap. unfold silent, unserved.
  by rewrite !(step_lookup _ _ _ _ Hthis Hheap).
Qed.

Lemma step_ready m st st' :
  this_step m (this st) (this st') → heap_step m (heap st) (heap st') →
  ready st → ready st'.
Proof.
  intros Hthis Hheap. unfold ready, has_client, has_method.
  by rewrite !(step_lookup _ _ _ _ Hthis Hheap).
Qed.

Lemma step_sent_by m' st st' m c :
  this_step m' (this st) (this st') → sent_by st' m c → sent_by st m c.
Proof.
  intros Hthis. destruct (this_step_fields _ _ _ Hthis) as (Hi & Ht & Ha & _).
  destruct m as [op|[| |]]; simpl; unfold response; by rewrite ?Hi, ?Ht, ?Ha.
Qed.

Lemma run_all_invoke ms : ∀ st,
  let result := run_all (invoke <$> ms) st in
  this result.2 = retype (type (this result.2)) (this st)
  ∧ (Forall (λ m, written_by m ≠ VInteraction) ms → this result.2 = this st)
  ∧ (silent st → silent result.2)
  ∧ (ready st → ready result.2)
  ∧ dom (heap st) ⊆ dom (heap result.2)
  ∧ (∀ l o, Forall (λ m, ¬ stamps m l) ms →
            heap st !! l = Some o → heap result.2 !! l = Some o)
  ∧ (silent st →
     result.1 = replicate (length ms) (Throw "TypeError")
     ∧ calls result.2 = calls st)
  ∧ (ready st →
     Forall (λ m, accepts st (written_by m)) ms →
     result.1 = (λ n, Normal (Promise n)) <$> seq (length (calls st)) (length ms)
     ∧ ∃ cs, calls result.2 = calls st ++ cs ∧ Forall2 (sent_by st) ms cs).
Proof.
  induction ms as [|m ms IH]; intros st; cbv zeta.
  - simpl. split; [by destruct (this st)|]. repeat (split; [done|]).
    exists []. by rewrite app_nil_r.
  - destruct (invoke_effect m st) as (r & st1 & E & Hthis & Hheap & Hr & Hs & Hu).
    rewrite fmap_cons, run_all_cons, E.
    specialize (IH st1).
    destruct (run_all (invoke <$> ms) st1) as [rs st2]. simpl in *.
    destruct IH as (IHthis & IHsame & IHsilent & IHready & IHdom & IHframe & IHfail & IHok).
    destruct (this_step_fields _ _ _ Hthis) as (_ & _ & _ & _ & _ & Hre).
    split; [by rewrite IHthis, Hre|].
    split.
    { intros [Hm Hms]%Forall_cons.
      by rewrite (IHsame Hms), (this_step_unwritten _ _ _ Hthis Hm). }
    split; [intros H; by apply IHsilent, (step_silent m st)|].
    split; [intros H; by apply IHready, (step_ready m st)|].
    split; [etrans; [by eapply heap_step_dom|done]|].
    split.
    { intros l o [Hm Hms]%Forall_cons Hl.
      eapply IHframe; [done|]. by eapply heap_step_frame. }
    split.
    + intros H. rewrite (Hu (silent_unserved _ m H)) in *.
      destruct Hr as [[? _]|[_ Hc]]; [done|].
      destruct (IHfail (step_silent m st st1 Hthis Hheap H)) as [-> ->].
      by rewrite Hc.
    + intros H [Hm Hms]%Forall_cons.
      destruct (Hs (ready_serves _ m H) Hm) as [p ->].
      destruct Hr as [(Hp & c & Hc & Hsent)|[? _]]; [|done]. simplify_eq.
      destruct (IHok (step_ready m st st1 Hthis Hheap H)) as (-> & cs & -> & Hcs).
      { eapply Forall_impl; [exact Hms|]. intros m' Hm'.
        by apply (step_accepts m st). }
      rewrite Hc, length_app, Nat.add_1_r. simpl. split; [done|].
      exists (c :: cs). rewrite <- app_assoc. split; [done|].
      constructor; [by apply Hsent, ready_serves|].
      eapply Forall2_impl; [exact Hcs|].
      intros m' c' Hm'. by apply (step_sent_by m st st1).
Qed.

(** X3: an interaction on whose client none of the four functions can be
    called ([undefined], [null], a primitive, an object without them)
    never reaches one: whatever methods are called, in whatever order, each
    throws TypeError and the trace of calls stays as it was. Nothing of the
    interaction changes but, when [createMessage] or [editParent] is given
    the interaction itself, its [type], which is written before the client
    is looked up. *)
Theorem without_client_nothing_is_sent ms st :
  silent st →
  let result := run_all (invoke <$> ms) st in
  result.1 = replicate (length ms) (Throw "TypeError")
  ∧ calls result.2 = calls st
  ∧ this result.2 = retype (type (this result.2)) (this st)
  ∧ (Forall (λ m, written_by m ≠ VInteraction) ms → this result.2 = this st)
  ∧ silent result.2.
Proof.
  intros H. simpl.
  destruct (run_all_invoke ms st) as (Hthis & Hsame & Hsilent & _ & _ & _ & Hfail & _).
  destruct (Hfail H) as [Hr Hc].
  split; [done|]. split; [done|]. split; [done|]. split; [done|]. by apply Hsilent.
Qed.

Lemma without_client_nothing_is_sent_witness :
  let ms := [Initial (CreateMessage VInteraction); Later (Delete (VString "@original"));
             Initial Acknowledge] in
  let result := run_all (invoke <$> ms) orphan in
  silent orphan
  ∧ result.1 = [Throw "TypeError"; Throw "TypeError"; Throw "TypeError"]
  ∧ calls result.2 = []
  ∧ this result.2 = retype (type (this result.2)) (this orphan)
  ∧ type (this result.2) = VNumber 4
  ∧ silent result.2.
Proof.
  intros ms result.
  assert (silent orphan) as H by (by repeat split).
  destruct (without_client_nothing_is_sent ms orphan H) as (Hr & Hc & Ht & _ & Hs).
  split; [exact H|]. split; [exact Hr|]. split; [exact Hc|]. split; [exact Ht|].
  split; [reflexivity|exact Hs].
Defined.

(** X4: with a REST client, every method succeeds in any sequence in which
    the options given to [createMessage] and [editParent] let their [type]
    be written: the n-th call returns the client's n-th promise and the
    trace grows by exactly one call per method, in order, an initial
    response sent under the interaction's id and token and a follow-up,
    edit or delete under the application's id and the token. The client
    stays a REST client even when it is itself given as options, and
    nothing of the interaction changes but its [type], and that only when
    the interaction itself is given as options. *)
Theorem with_client_every_call_is_sent ms st :
  ready st →
  Forall (λ m, accepts st (written_by m)) ms →
  let result := run_all (invoke <$> ms) st in
  result.1 = (λ n, Normal (Promise n)) <$> seq (length (calls st)) (length ms)
  ∧ (∃ cs, calls result.2 = calls st ++ cs ∧ Forall2 (sent_by st) ms cs)
  ∧ this result.2 = retype (type (this result.2)) (this st)
  ∧ (Forall (λ m, written_by m ≠ VInteraction) ms → this result.2 = this st)
  ∧ ready result.2.
Proof.
  intros H Ha. simpl.
  destruct (run_all_invoke ms st) as (Hthis & Hsame & _ & Hready & _ & _ & _ & Hok).
  destruct (Hok H Ha) as [Hr Hc].
  split; [done|]. split; [done|]. split; [done|]. split; [done|]. by apply Hready.
Qed.

Lemma with_client_every_call_is_sent_witness :
  let ms := [Initial (EditParent (VObject 1)); Later (Delete (VString "@original"));
             Initial (CreateMessage VInteraction); Initial (Defer (VNumber 64))] in
  let result := run_all (invoke <$> ms) Sample.ping in
  ready Sample.ping
  ∧ Forall (λ m, accepts Sample.ping (written_by m)) ms
  ∧ result.1 = [Normal (Promise 0); Normal (Promise 1); Normal (Promise 2);
                Normal (Promise 3)]
  ∧ (∃ cs, calls result.2 = cs ∧ Forall2 (sent_by Sample.ping) ms cs)
  ∧ type (this result.2) = VNumber 4
  ∧ ready result.2.
Proof.
  intros ms result.
  assert (Forall (λ m, accepts Sample.ping (written_by m)) ms) as Ha.
  { repeat constructor. eexists. split; reflexivity. }
  destruct (with_client_every_call_is_sent ms Sample.ping eq_refl Ha)
    as (Hr & Hc & _ & _ & Hready).
  split; [reflexivity|]. split; [exact Ha|]. split; [exact Hr|].
  split; [exact Hc|]. split; [reflexivity|exact Hready].
Defined.

(** X5: the only object a method ever writes to is the options object
    handed to [createMessage] or [editParent]. Through any sequence of
    methods, an object of the heap that is not passed to one of these two
    is found unchanged afterwards, and no object is ever removed. *)
Theorem methods_write_only_their_options ms st l o :
  Forall (λ m, ¬ stamps m l) ms →
  heap st !! l = Some o →
  let result := run_all (invoke <$> ms) st in
  heap result.2 !! l = Some o
  ∧ dom (heap st) ⊆ dom (heap result.2).
Proof.
  intros Hms Hl. simpl.
  destruct (run_all_invoke ms st) as (_ & _ & _ & _ & Hdom & Hframe & _).
  split; [by apply Hframe | done].
Qed.

Lemma methods_write_only_their_options_witness :
  let ms := [Initial (CreateMessage (VObject 4)); Initial Acknowledge;
             Later (CreateFollowup (VObject 3)); Later (Edit (VString "@original") (VObject 3))] in
  Forall (λ m, ¬ stamps m 3%positive) ms
  ∧ heap (run_all (invoke <$> ms) Sample.message_component).2 !! 3%positive
    = Some (literal {[ "content" := VString "hi" ]}).
Proof.
  intros ms.
  assert (Forall (λ m, ¬ stamps m 3%positive) ms) as H.
  { repeat constructor; intros [E|E]; discriminate E. }
  split; [exact H|].
  exact (proj1 (methods_write_only_their_options ms Sample.message_component 3%positive
                  (literal {[ "content" := VString "hi" ]}) H eq_refl)).
Defined.

(** ** The constructor on any payload *)

(** X1: the constructor throws exactly when the payload is [undefined] or
    [null], and then a TypeError; on every other payload it returns an
    interaction, not frozen, holding the client it was given, and on a
    payload that is not an object (a boolean, a number, a string, a
    function) every field read from the payload is [undefined] or left
    out. *)
Theorem constructor_throws_on_nullish_only h payload client :
  match constructor h payload client with
  | Throw e => e = "TypeError" ∧ (payload = VUndefined ∨ payload = VNull)
  | Normal r =>
      payload ≠ VUndefined ∧ payload ≠ VNull ∧ _client r = client
      ∧ frozen r = false
      ∧ (typeof payload ≠ "object" →
         id r = VUndefined ∧ applicationId r = VUndefined
         ∧ type r = VUndefined ∧ version r = VUndefined
         ∧ channelId r = None ∧ data r = None ∧ guildId r = None
         ∧ token r = None ∧ member r = None ∧ message r = None)
  end.
Proof.
  destruct payload as [| |b|z| |s|l|e|]; simpl; eauto;
    (split; [done|]); (split; [done|]); (split; [done|]); (split; [done|]); done.
Qed.

Lemma assign_when_defined {A} (mk : value → A) v :
  assign_if_defined mk v = mk <$> when_defined v.
Proof. by destruct v. Qed.

(** X2: on a payload object, an optional field ([channel_id], [data],
    [guild_id], [token], [member], [message]) that is absent or
    [undefined] leaves the interaction's property unassigned; any other
    value, [null] included, is stored as it is ([member] and [message]
    wrapped in their classes, the message with the interaction's client). *)
Theorem constructor_optional_fields h l o client :
  h !! l = Some o →
  ∃ r,
    constructor h (VObject l) client = Normal r
    ∧ channelId r = when_defined (payload_field o "channel_id")
    ∧ data r = when_defined (payload_field o "data")
    ∧ guildId r = when_defined (payload_field o "guild_id")
    ∧ token r = when_defined (payload_field o "token")
    ∧ member r = new_Member <$> when_defined (payload_field o "member")
    ∧ message r
      = (λ v, new_Message v client) <$> when_defined (payload_field o "message")
    ∧ applicationId r = payload_field o "application_id"
    ∧ version r = payload_field o "version".
Proof.
  intros H. unfold constructor, get. rewrite H. simpl.
  eexists. split; [reflexivity|]. simpl.
  rewrite !assign_when_defined. unfold payload_field.
  repeat split; by destruct (when_defined _).
Qed.

Lemma constructor_optional_fields_witness :
  sparse_store !! 5%positive = Some sparse_payload
  ∧ ∃ r,
      constructor sparse_store (VObject 5) (VObject 1) = Normal r
      ∧ channelId r = None
      ∧ guildId r = Some VNull
      ∧ token r = None
      ∧ member r = Some (new_Member (VObject 6))
      ∧ message r = Some (new_Message (VObject 7) (VObject 1)).
Proof.
  split; [reflexivity|].
  destruct (constructor_optional_fields sparse_store 5%positive sparse_payload
              (VObject 1) eq_refl)
    as (r & E & Hc & _ & Hg & Ht & Hm & Hmsg & _).
  exists r. split; [exact E|].
  split; [exact Hc|]. split; [exact Hg|]. split; [exact Ht|].
  split; [exact Hm|exact Hmsg].
Defined.

(** ** The options object when the send fails, and when it is used twice *)

Lemma unserved_throws st name args st1 :
  unserved st name →
  match resolve (heap st) (_client (this st)) name with
  | Normal k => apply_callee k (_client (this st)) args st1
  | Throw e => (Throw e, st1)
  end = (Throw "TypeError", st1).
Proof.
  unfold unserved. destruct (resolve _ _ _) as [[e|e|]|e] eqn:E; try done.
  by rewrite (resolve_throws _ _ _ _ E).
Qed.

(** X6: the response type is written into the caller's options object
    before the client is looked up. When nothing can be called under
    [createInteractionResponse] of the client and the options object lets
    its [type] be written, [createMessage] and [editParent] throw TypeError
    and send nothing, yet the caller's object has been stamped with 4,
    respectively 7, all the same. *)
Theorem stamp_survives_failed_send l o st :
  unserved st "createInteractionResponse" →
  heap st !! l = Some o →
  writable "type" o = true →
  createMessage (VObject l) st =
    (Throw "TypeError",
     {| this := this st; heap := <[l := set_own "type" (VNumber 4) o]> (heap st);
        calls := calls st |})
  ∧ editParent (VObject l) st =
    (Throw "TypeError",
     {| this := this st; heap := <[l := set_own "type" (VNumber 7) o]> (heap st);
        calls := calls st |}).
Proof.
  intros H Hl Hw. unfold createMessage, editParent.
  rewrite !(stamped_object _ _ _ _ Hl), !assign_writable by done.
  by rewrite !(unserved_throws st _ _ _ H).
Qed.

Lemma stamp_survives_failed_send_witness :
  let result := createMessage (VObject 3) orphan in
  unserved orphan "createInteractionResponse"
  ∧ heap orphan !! 3%positive = Some (literal {[ "content" := VString "hi" ]})
  ∧ result.1 = Throw "TypeError"
  ∧ calls result.2 = []
  ∧ field result.2 (VObject 3) "type" = Normal (VNumber 4).
Proof.
  intros result. subst result.
  assert (unserved orphan "createInteractionResponse") as H by exact I.
  destruct (stamp_survives_failed_send 3%positive
              (literal {[ "content" := VString "hi" ]}) orphan H eq_refl eq_refl)
    as [E _].
  split; [exact H|]. split; [reflexivity|].
  rewrite E. vm_compute. by repeat split.
Defined.

Lemma assign_refused k v v' o : assign k v o = None → assign k v' o = None.
Proof.
  unfold assign. destruct (attrs o !! k) as [[]|]; try done.
  by destruct (_ || _).
Qed.

(** The heap after [createMessage] or [editParent] on the object at [l],
    whatever the client. *)
Lemma stamped_heap ty l st :
  heap ((options' ← stamp ty (VObject l);
         self ← get_this;
         send ← method_call (_client self) "createInteractionResponse";
         send (_client self) [id self; read (token self); options']) st).2
  = stamped ty l (heap st).
Proof.
  unfold stamped. destruct (heap st !! l) as [o|] eqn:Ho.
  - rewrite (stamped_object _ _ _ _ Ho).
    destruct (assign "type" ty o) as [o'|]; [|done].
    destruct (resolve _ _ _) as [[e|e|]|e]; done.
  - rewrite stamped_eq. pose proof (stamp_object ty l st) as Es.
    rewrite Ho in Es. rewrite Es.
    destruct (resolve _ _ _) as [[e|e|]|e]; done.
Qed.

Lemma stamped_stamped ty ty' l (h : gmap loc object) :
  stamped ty' l (stamped ty l h) = stamped ty' l h.
Proof.
  unfold stamped at 2 3. destruct (h !! l) as [o|] eqn:Ho.
  - destruct (assign "type" ty o) as [o'|] eqn:Ha.
    + unfold stamped. rewrite lookup_insert_eq, (assign_assign _ _ _ _ _ Ha).
      destruct (assign "type" ty' o) eqn:Ha'; [by rewrite insert_insert_eq|].
      by rewrite (assign_refused _ _ ty _ Ha') in Ha.
    + unfold stamped. rewrite Ho. by rewrite (assign_refused _ _ ty' _ Ha).
  - unfold stamped. by rewrite Ho.
Qed.

(** X7: stamping is last-writer-wins on a shared options object. Handing
    one object first to [createMessage] and then to [editParent] leaves the
    heap as [editParent] alone would, and a second [createMessage] on the
    same object changes nothing more. When the client has
    [createInteractionResponse] and the object lets its [type] be written,
    the two requests in the trace are that one object, so the request sent
    first is seen to carry the type written last. *)
Theorem restamping_overwrites l st :
  let first := (createMessage (VObject l) st).2 in
  heap (editParent (VObject l) first).2 = heap (editParent (VObject l) st).2
  ∧ heap (createMessage (VObject l) first).2 = heap first
  ∧ (responds st →
     (∃ o, heap st !! l = Some o ∧ writable "type" o = true) →
     calls (editParent (VObject l) first).2
     = calls st ++ [response st (VObject l); response st (VObject l)]
     ∧ field (editParent (VObject l) first).2 (VObject l) "type" = Normal (VNumber 7)).
Proof.
  simpl. split; [|split].
  - unfold createMessage, editParent. by rewrite !stamped_heap, stamped_stamped.
  - unfold createMessage. by rewrite !stamped_heap, stamped_stamped.
  - intros H (o & Ho & Hw).
    destruct (run_responds (CreateMessage (VObject l)) st H)
      as (body & st1 & E & _ & H1 & _ & _); [by exists o|].
    simpl in E. rewrite E. simpl.
    unfold createMessage in E. rewrite (stamped_writable _ _ _ _ H Ho Hw) in E.
    simplify_eq. unfold editParent.
    rewrite (stamped_writable _ l (set_own "type" (VNumber 4) o) _ H1);
      [|apply lookup_insert_eq|by apply writable_set_own].
    unfold field, get. simpl. rewrite <- app_assoc. split; [done|].
    rewrite lookup_insert_eq. simpl. by rewrite lookup_insert_eq.
Qed.

Lemma restamping_overwrites_witness :
  let first := (createMessage (VObject 3) Sample.message_component).2 in
  let second := (editParent (VObject 3) first).2 in
  responds Sample.message_component
  ∧ (∃ o, heap Sample.message_component !! 3%positive = Some o
          ∧ writable "type" o = true)
  ∧ calls second =
      [createInteractionResponse (VString "1001") (VString "tok") (VObject 3);
       createInteractionResponse (VString "1001") (VString "tok") (VObject 3)]
  ∧ field second (VObject 3) "type" = Normal (VNumber 7).
Proof.
  intros first second.
  destruct (restamping_overwrites 3%positive Sample.message_component) as (_ & _ & H).
  assert (∃ o, heap Sample.message_component !! 3%positive = Some o
               ∧ writable "type" o = true) as Hs.
  { eexists. split; reflexivity. }
  destruct (H eq_refl Hs) as [Hc Ht].
  split; [reflexivity|]. split; [exact Hs|].
  split; [exact Hc | exact Ht].
Defined.

(** ** The flags of a deferred response *)

(** X8: the request of [defer(flags)] always carries a [flags] field, and
    it is never [undefined], [null], [false], NaN or the empty string: an
    integer is sent as it is (0 included), every other falsy argument is
    sent as 0, and a truthy argument of any type is passed through
    unchecked. *)
Theorem defer_flags_default flags st :
  ready st →
  let sent := field (defer flags st).2 (VObject (fresh (dom (heap st)))) "flags" in
  (∀ z, flags = VNumber z → sent = Normal (VNumber z))
  ∧ (truthy flags = false → sent = Normal (VNumber 0))
  ∧ (truthy flags = true → sent = Normal flags)
  ∧ ∃ v, sent = Normal v ∧ (v = VNumber 0 ∨ truthy v = true).
Proof.
  intros H%ready_responds. simpl. rewrite defer_ready by done. unfold field, get. simpl.
  rewrite lookup_insert_eq. simpl.
  rewrite lookup_insert_ne by discriminate. rewrite lookup_singleton_eq. simpl.
  unfold js_or. split.
  { intros z ->. simpl. destruct (Z.eqb_spec z 0) as [->|]; by simpl. }
  destruct (truthy flags) eqn:E; (split; [done|]); (split; [done|]); eauto.
Qed.

Lemma defer_flags_default_witness :
  ready Sample.ping
  ∧ field (defer VNull Sample.ping).2 (VObject 5) "flags" = Normal (VNumber 0)
  ∧ field (defer (VBool false) Sample.ping).2 (VObject 5) "flags" = Normal (VNumber 0)
  ∧ field (defer (VNumber 0) Sample.ping).2 (VObject 5) "flags" = Normal (VNumber 0)
  ∧ field (defer (VString "64") Sample.ping).2 (VObject 5) "flags" = Normal (VString "64").
Proof.
  split; [reflexivity|].
  pose proof (defer_flags_default VNull Sample.ping eq_refl) as (_ & H1 & _).
  pose proof (defer_flags_default (VBool false) Sample.ping eq_refl) as (_ & H2 & _).
  pose proof (defer_flags_default (VNumber 0) Sample.ping eq_refl) as (H3 & _).
  pose proof (defer_flags_default (VString "64") Sample.ping eq_refl) as (_ & _ & H4 & _).
  split; [exact (H1 eq_refl)|]. split; [exact (H2 eq_refl)|].
  split; [exact (H3 0 eq_refl) | exact (H4 eq_refl)].
Defined.

(** ** Follow-up, edit and delete *)

(** X9: [createFollowup], [edit] and [delete] only forward, each through
    its own function of the client. In any number and order they leave the
    heap, and so every options object, and the interaction as they were.
    When the client has the function of each method called
    ([executeWebhook], [editWebhookMessage], [deleteWebhookMessage]; it
    need not have the others), each hands over its arguments unchanged
    under the application's id and the token, in the order called; when
    nothing can be called under the names looked up, every call throws
    TypeError and the state is not touched at all. *)
Theorem later_methods_only_forward fs st :
  let result := run_all (run_later <$> fs) st in
  this result.2 = this st
  ∧ heap result.2 = heap st
  ∧ (Forall (λ f, served st (Later f)) fs →
     calls result.2 = calls st ++ (later_call st <$> fs)
     ∧ result.1 = (λ n, Normal (Promise n)) <$> seq (length (calls st)) (length fs))
  ∧ (Forall (λ f, unserved st (method_name (Later f))) fs →
     result.2 = st
     ∧ result.1 = replicate (length fs) (Throw "TypeError")).
Proof.
  simpl. destruct (run_all_later_frame fs st) as (Ht & Hh & _).
  split; [done|]. split; [done|]. split.
  - intros H. by rewrite (run_all_later_served _ _ H).
  - intros H. by rewrite (run_all_later_unserved _ _ H).
Qed.

(** A client that has [executeWebhook] only: follow-ups reach it, an edit
    and a delete do not. *)
Lemma later_methods_only_forward_witness :
  let followups := [CreateFollowup (VObject 3); CreateFollowup (VObject 4)] in
  let others := [Delete (VString "77"); Edit (VString "@original") (VObject 4)] in
  Forall (λ f, served webhook_only (Later f)) followups
  ∧ Forall (λ f, unserved webhook_only (method_name (Later f))) others
  ∧ ¬ ready webhook_only
  ∧ calls (run_all (run_later <$> followups) webhook_only).2 =
      [executeWebhook (VString "app") (VString "tok") (VObject 3);
       executeWebhook (VString "app") (VString "tok") (VObject 4)]
  ∧ run_all (run_later <$> others) webhook_only
    = ([Throw "TypeError"; Throw "TypeError"], webhook_only).
Proof.
  intros followups others.
  assert (Forall (λ f, served webhook_only (Later f)) followups) as H1.
  { repeat constructor. }
  assert (Forall (λ f, unserved webhook_only (method_name (Later f))) others) as H2.
  { repeat constructor. }
  destruct (later_methods_only_forward followups webhook_only) as (_ & _ & Hs & _).
  destruct (later_methods_only_forward others webhook_only) as (_ & _ & _ & Hu).
  destruct (Hs H1) as [Hc _]. destruct (Hu H2) as [Hst Hr].
  split; [exact H1|]. split; [exact H2|]. split; [discriminate|].
  split; [exact Hc|].
  rewrite (surjective_pairing (run_all (run_later <$> others) webhook_only)).
  by rewrite Hst, Hr.
Defined.

(** ** From the payload to the requests *)

Lemma constructor_identifiers h d o client :
  h !! d = Some o →
  ∃ r, constructor h (VObject d) client = Normal r
       ∧ id r = payload_field o "id"
       ∧ read (token r) = payload_field o "token"
       ∧ applicationId r = payload_field o "application_id"
       ∧ _client r = client
       ∧ frozen r = false.
Proof.
  intros Hd. unfold constructor, get. rewrite Hd. simpl.
  eexists. split; [reflexivity|]. simpl. by rewrite read_assigned.
Qed.

(** X10: on an interaction just constructed from a payload object, with a
    REST client, every method whose options, if it writes to any, let
    their [type] be written makes exactly one call, addressed from the
    payload: an initial response under the payload's [id] and [token], a
    follow-up, edit or delete under its [application_id] and [token], with
    the caller's message id and options as given. A field the payload lacks
    is sent as [undefined]. *)
Theorem requests_carry_payload_identifiers h d o client m :
  h !! d = Some o →
  has_client h client = true →
  (∀ l, written_by m = VObject l → ∃ o', h !! l = Some o' ∧ writable "type" o' = true) →
  ∃ r c st',
    constructor h (VObject d) client = Normal r
    ∧ invoke m {| this := r; heap := h; calls := [] |} = (Normal (Promise 0), st')
    ∧ calls st' = [c]
    ∧ match m with
      | Initial _ =>
          ∃ body, c = createInteractionResponse
                        (payload_field o "id") (payload_field o "token") body
      | Later (CreateFollowup options) =>
          c = executeWebhook
                (payload_field o "application_id") (payload_field o "token") options
      | Later (Edit messageId options) =>
          c = editWebhookMessage
                (payload_field o "application_id") (payload_field o "token")
                messageId options
      | Later (Delete messageId) =>
          c = deleteWebhookMessage
                (payload_field o "application_id") (payload_field o "token") messageId
      end.
Proof.
  intros Hd Hc Hopts.
  destruct (constructor_identifiers h d o client Hd)
    as (r & Er & Hi & Ht & Ha & Hcl & Hf).
  set (st := {| this := r; heap := h; calls := [] |}).
  assert (ready st) as Hready by (unfold ready; simpl; by rewrite Hcl).
  assert (accepts st (written_by m)) as Hacc.
  { destruct (written_by m) as [| | | | | |l| |] eqn:Ew; simpl; try done.
    by apply Hopts. }
  destruct (invoke_effect m st) as (r' & st' & E & _ & _ & Hres & Hs & _).
  destruct (Hs (ready_serves _ m Hready) Hacc) as [p ->].
  destruct Hres as [(Hp & c & Hcalls & Hsent)|[? _]]; [|done]. simplify_eq.
  exists r, c, st'. split; [exact Er|]. split; [exact E|]. split; [exact Hcalls|].
  specialize (Hsent (ready_serves _ m Hready)).
  destruct m as [op|[options|messageId options|messageId]]; simpl in Hsent;
    unfold response, later_call in Hsent; simpl in Hsent;
    rewrite ?Hi, ?Ht, ?Ha in Hsent; exact Hsent.
Qed.

Lemma requests_carry_payload_identifiers_witness :
  sparse_store !! 5%positive = Some sparse_payload
  ∧ has_client sparse_store (VObject 1) = true
  ∧ ∃ r c st',
      constructor sparse_store (VObject 5) (VObject 1) = Normal r
      ∧ invoke (Later (Delete (VString "@original")))
          {| this := r; heap := sparse_store; calls := [] |} = (Normal (Promise 0), st')
      ∧ calls st' = [c]
      ∧ c = deleteWebhookMessage (VString "app") VUndefined (VString "@original").
Proof.
  split; [reflexivity|]. split; [reflexivity|].
  apply (requests_carry_payload_identifiers sparse_store 5%positive sparse_payload
           (VObject 1) (Later (Delete (VString "@original"))) eq_refl eq_refl).
  intros l Hl. discriminate Hl.
Defined.
